(** * deepstream.io-storage-arangodb: envelope transformer and key routing

    A shallow embedding of [src/transform-data.js] and [src/connector.js].

    - JSON-like values are an inductive type; a JavaScript object is the
      finite map of its own properties ([gmap string json]), so that deep
      equality (which ignores property order) is Leibniz equality.
    - The collection cache is the one object read under arbitrary names; its
      own properties are a finite map as well, and a read that finds no own
      property falls back on the names of [Object.prototype].
    - Numbers are integers: the sign of zero and the non-finite doubles, which
      [JSON.stringify] does not preserve, are outside the model.
    - A JavaScript exception is an explicit [Throws] outcome.
    - Asynchronous code is defunctionalised: every callback handed to the
      database driver is a constructor of [kont], and running it on the
      driver's reply yields the list of actions the callback performs. *)

From Stdlib Require Import ZArith String Ascii.
From stdpp Require Import gmap strings list fin_maps.

Set Warnings "-register-all".
Local Open Scope string_scope.
Local Open Scope list_scope.

(** ** JSON-like values *)

Inductive json :=
| JNull
| JBool (b : bool)
| JNum (n : Z)
| JStr (s : string)
| JArr (l : list json)
| JObj (m : gmap string json).

(** [JSON.parse(JSON.stringify(v))]: a structural copy of a JSON-like value. *)
Fixpoint clone (v : json) : json :=
  match v with
  | JArr l => JArr (map clone l)
  | JObj m => JObj (clone <$> m)
  | _ => v
  end.

Fixpoint json_size (v : json) : nat :=
  match v with
  | JArr l => S (foldr (λ x acc, json_size x + acc) 0 l)
  | JObj m => S (map_fold (λ _ x acc, json_size x + acc) 0 m)
  | _ => 1
  end.

(** JavaScript truthiness of a JSON-like value ([!v] is its negation). *)
Definition truthy (v : json) : bool :=
  match v with
  | JNull => false
  | JBool b => b
  | JNum n => negb (n =? 0)%Z
  | JStr s => negb (String.eqb s EmptyString)
  | JArr _ | JObj _ => true
  end.

(** [v instanceof Array] on a value that may be [undefined]. *)
Definition instanceof_Array (v : option json) : bool :=
  match v with
  | Some (JArr _) => true
  | _ => false
  end.

Inductive js_error := TypeError.

Inductive outcome (A : Type) :=
| Returns (a : A)
| Throws (e : js_error).
Arguments Returns {A} a.
Arguments Throws {A} e.

Definition obind {A B} (o : outcome A) (f : A → outcome B) : outcome B :=
  match o with
  | Returns a => f a
  | Throws e => Throws e
  end.

(** ** transform-data.js *)

Module Transform.

(** What [transformValueFromStorage] hands back: a JSON-like value, or, when
    the stored [__ds] field is itself an array, that array object with an
    extra [_d] property set on it. *)
Inductive platform :=
| Plain (v : json)
| ArrayWithD (elems : list json) (d : json).

(** [transformValueForStorage], lines 19-35.  Reading [_d] of anything that
    is not an object with that own property gives [undefined]; assigning
    [data.__ds] on [undefined], [null], or (the file is in strict mode) on a
    primitive throws a TypeError. *)
Definition transformValueForStorage (value : json) : outcome json :=
  match clone value with
  | JObj value =>
      let data := value !! "_d" in
      let value := delete "_d" value in
      match data with
      | Some (JArr l) =>
          Returns (JObj (<["__dsList" := JArr l]> (<["__ds" := JObj value]> ∅)))
      | Some (JObj data) => Returns (JObj (<["__ds" := JObj value]> data))
      | _ => Throws TypeError
      end
  | _ => Throws TypeError
  end.

(** [transformValueFromStorage], lines 50-66. *)
Definition transformValueFromStorage (value : json) : outcome platform :=
  match clone value with
  | JObj value =>
      let data := value !! "__ds" in
      let value := delete "__ds" value in
      let value := delete "_key" value in
      let value := delete "_rev" value in
      let value := delete "_id" value in
      let d :=
        if instanceof_Array (value !! "__dsList")
        then default JNull (value !! "__dsList")
        else JObj value in
      match data with
      | Some (JObj data) => Returns (Plain (JObj (<["_d" := d]> data)))
      | Some (JArr elems) => Returns (ArrayWithD elems d)
      | _ => Throws TypeError
      end
  | _ => Throws TypeError
  end.

Definition roundtrip (v : json) : outcome platform :=
  obind (transformValueForStorage v) transformValueFromStorage.

(** The nested payload is an object or an array. *)
Definition is_payload (p : json) : bool :=
  match p with
  | JArr _ | JObj _ => true
  | _ => false
  end.

(** The field names the two transformations give a meaning of their own in a
    storage document. *)
Definition reserved_free (p : json) : bool :=
  match p with
  | JObj d =>
      bool_decide (d !! "__ds" = None) && bool_decide (d !! "_key" = None)
      && bool_decide (d !! "_rev" = None) && bool_decide (d !! "_id" = None)
      && negb (instanceof_Array (d !! "__dsList"))
  | _ => true
  end.

(** Lines 54-57 on their own: a storage document without the side channel
    and the bookkeeping fields. *)
Definition stripped (d : gmap string json) : gmap string json :=
  delete "_id" (delete "_rev" (delete "_key" (delete "__ds" d))).

(** The value read by [value._d]: [undefined] when the input is not an
    object or has no such field. *)
Definition payload_field (v : json) : option json :=
  match v with
  | JObj m => m !! "_d"
  | _ => None
  end.

End Transform.

(** ** connector.js *)

Module Connector.
Import Transform.

(** *** JavaScript string primitives *)

(** [s.indexOf(searchString)] continued at offset [i]: the index of the
    first place where [searchString] is a prefix of what is left, or -1. *)
Fixpoint indexOf_from (searchString s : string) (i : Z) : Z :=
  if String.prefix searchString s then i
  else match s with
       | EmptyString => (-1)%Z
       | String _ s' => indexOf_from searchString s' (i + 1)
       end.

Definition indexOf (s searchString : string) : Z := indexOf_from searchString s 0.

(** [s.substring(start, stop)]: both ends clamped to the length, swapped
    when out of order. *)
Definition js_substring (s : string) (start stop : nat) : string :=
  let len := String.length s in
  let a := Nat.min start len in
  let b := Nat.min stop len in
  String.substring (Nat.min a b) (Nat.max a b - Nat.min a b) s.

(** [ToString] of the [_splitChar] field, which [indexOf] applies to its
    argument: the value [null] becomes the four-character string. *)
Definition ToString (v : option string) : string := default "null" v.

(** [o || d] for an optional string option: absent and empty are falsy. *)
Definition or_else (o : option string) (d : string) : string :=
  match o with
  | Some s => if String.eqb s EmptyString then d else s
  | None => d
  end.

Definition or_null (o : option string) : option string :=
  match o with
  | Some s => if String.eqb s EmptyString then None else Some s
  | None => None
  end.

(** *** The driver interface *)

Definition error := string.

(** A collection handle object: [h_obj] is the identity of the object that
    [_db.collection(name)] allocates. *)
Record handle := Handle { h_name : string; h_obj : nat }.

(** The property names that the cache object, a plain [{}], inherits from
    [Object.prototype].  Reading one of them from an object that has no own
    property of that name gives the inherited function (for [__proto__], the
    prototype object itself), which is truthy. *)
Definition Object_prototype : list string :=
  ["constructor"; "__defineGetter__"; "__defineSetter__"; "hasOwnProperty";
   "__lookupGetter__"; "__lookupSetter__"; "isPrototypeOf"; "propertyIsEnumerable";
   "toString"; "valueOf"; "__proto__"; "toLocaleString"].

Definition inherited (name : string) : bool := bool_decide (name ∈ Object_prototype).

(** What [this._collections[name]] evaluates to when it is truthy, and so
    what a query is aimed at: a collection handle, or the value inherited
    under a name of [Object.prototype], which is no collection. *)
Inductive target :=
| Collection (h : handle)
| Inherited (name : string).

Inductive request :=
| ListUserDatabases
| CreateDatabase (name user passwd : string)
| UseDatabase (name : string)
| CollGet (h : handle)
| CollCreate (h : handle) (name : string) (allowUserKeys : bool)
| Upsert (coll : target) (_key : string) (doc : gmap string json)
| Select (coll : target) (_key : string)
| CursorNext (records : list json)
| Remove (coll : target) (_key : string).

(** The second argument the driver passes to a callback. *)
Inductive payload :=
| PNone
| PNames (names : list string)
| PCursor (records : list json)
| PRecord (r : json)
| PInfo (j : json).

Record reply := Reply { err : option error; res : payload }.

Definition ok (p : payload) : reply := Reply None p.
Definition fail (e : error) (p : payload) : reply := Reply (Some e) p.

(** The closures handed to the driver, one constructor per closure of the
    source, each with the variables it captures. *)
Inductive kont :=
| KListed
| KDbCreated
| KUsed
| KCollGet (collectionName : string)
| KCollCreate
| KSet (callback : nat)
| KGet (callback : nat)
| KGetNext (callback : nat)
| KDelete (callback : nat).

(** An argument of the caller's callback. *)
Inductive arg :=
| ANull
| ATrue
| AStr (s : string)
| AErr (e : error)
| ARaw (p : payload)
| ADoc (d : platform).

Inductive action :=
| Invoke (callback : nat) (args : list arg)
| Send (r : request) (k : kont)
| ConsoleError (e : error)
| Emit (event : string) (e : option error)
| Raise (e : js_error).

(** *** The connector object *)

Record options := Options {
  databaseURL : option string;
  databaseName : option string;
  username : option string;
  password : option string;
  defaultCollection : option string;
  splitChar : option string }.

Record connector := Mk {
  isReady : bool;
  _dbUrl : string;
  _databaseName : string;
  _databaseUser : string;
  _databasePass : string;
  _splitChar : option string;
  _defaultCollection : string;
  _collections : gmap string handle;
  next_obj : nat }.

Definition with_collections (this : connector) (c : gmap string handle) (n : nat) :=
  Mk (isReady this) (_dbUrl this) (_databaseName this) (_databaseUser this)
     (_databasePass this) (_splitChar this) (_defaultCollection this) c n.

Definition with_ready (this : connector) :=
  Mk true (_dbUrl this) (_databaseName this) (_databaseUser this)
     (_databasePass this) (_splitChar this) (_defaultCollection this)
     (_collections this) (next_obj this).

(** The constructor, lines 60-105: the fields, and the first request of the
    bootstrap chain. *)
Definition new (o : options) : connector * list action :=
  (Mk false
      (or_else (databaseURL o) "http://127.0.0.1:8529")
      (or_else (databaseName o) "deepstream")
      (or_else (username o) "deepstream")
      (or_else (password o) "deepstream")
      (or_null (splitChar o))
      (or_else (defaultCollection o) "deepstream_docs")
      ∅ 0,
   [Send ListUserDatabases KListed]).

(** [_getCollection], lines 236-256.  [_collections] holds the own
    properties of the cache object; [this._collections[collectionName]] is
    the own property if there is one (a handle object, always truthy), else
    the value inherited from [Object.prototype] if the name is one of its
    property names (truthy as well, so that line 237 skips the branch), else
    [undefined]. *)
Definition _getCollection (this : connector) (collectionName : string)
  : target * connector * list action :=
  match _collections this !! collectionName with
  | Some h => (Collection h, this, [])
  | None =>
      if inherited collectionName then (Inherited collectionName, this, [])
      else
        let h := Handle collectionName (next_obj this) in
        (Collection h,
         with_collections this (<[collectionName := h]> (_collections this))
           (S (next_obj this)),
         [Send (CollGet h) (KCollGet collectionName)])
  end.

(** Lines 210-222 of [_getParams]: the collection name and the document id,
    or [None] where the source returns [null]. *)
Definition route (this : connector) (key : string) : option (string * string) :=
  let index := indexOf key (ToString (_splitChar this)) in
  if (index =? 0)%Z then None
  else if (index =? -1)%Z then Some (_defaultCollection this, key)
  else Some (js_substring key 0 (Z.to_nat index),
             js_substring key (Z.to_nat (index + 1)) (String.length key)).

Record params := Params { collection : target; id : string }.

(** [_getParams], lines 209-225. *)
Definition _getParams (this : connector) (key : string)
  : option params * connector * list action :=
  match route this key with
  | None => (None, this, [])
  | Some (collectionName, id) =>
      let '(h, this, acts) := _getCollection this collectionName in
      (Some (Params h id), this, acts)
  end.

(** [set], lines 117-137. *)
Definition set (this : connector) (key : string) (value : json) (callback : nat)
  : connector * list action :=
  match _getParams this key with
  | (None, this, acts) => (this, acts ++ [Invoke callback [AStr ("Invalid key " +:+ key)]])
  | (Some params, this, acts) =>
      match transformValueForStorage value with
      | Returns (JObj value) =>
          let value := <["_key" := JStr (id params)]> value in
          (this, acts ++ [Send (Upsert (collection params) (id params) value)
                               (KSet callback)])
      | Returns _ => (this, acts ++ [Raise TypeError])
      | Throws e => (this, acts ++ [Raise e])
      end
  end.

(** [get], lines 149-170: the filter compares [_key] with the whole key. *)
Definition get (this : connector) (key : string) (callback : nat)
  : connector * list action :=
  match _getParams this key with
  | (None, this, acts) => (this, acts ++ [Invoke callback [AStr ("Invalid key " +:+ key)]])
  | (Some params, this, acts) =>
      (this, acts ++ [Send (Select (collection params) key) (KGet callback)])
  end.

(** [delete], lines 182-196. *)
Definition delete (this : connector) (key : string) (callback : nat)
  : connector * list action :=
  match _getParams this key with
  | (None, this, acts) => (this, acts ++ [Invoke callback [AStr ("Invalid key " +:+ key)]])
  | (Some params, this, acts) =>
      (this, acts ++ [Send (Remove (collection params) key) (KDelete callback)])
  end.

(** What each closure does when the driver calls it with [r]. *)
Definition handle_reply (this : connector) (k : kont) (r : reply)
  : connector * list action :=
  match k with
  | KListed =>
      (* lines 78-94, and the [catch] of line 102 *)
      match err r, res r with
      | Some e, _ => (this, [Emit "error" (Some e)])
      | None, PNames names =>
          if bool_decide (_databaseName this ∈ names)
          then (this, [Send (UseDatabase (_databaseName this)) KUsed])
          else (this, [Send (CreateDatabase (_databaseName this)
                               (_databaseUser this) (_databasePass this))
                            KDbCreated])
      | None, _ => (this, [Emit "error" (Some "TypeError")])
      end
  | KDbCreated =>
      match err r with
      | Some e => (this, [Emit "error" (Some e)])
      | None => (this, [Send (UseDatabase (_databaseName this)) KUsed])
      end
  | KUsed =>
      (* lines 98-104 *)
      match err r with
      | Some e => (this, [Emit "error" (Some e)])
      | None => (with_ready this, [Emit "ready" None])
      end
  | KCollGet collectionName =>
      (* lines 240-251; without an own property of that name, [.create] is
         [Object.create] under the name [constructor], which returns a new
         object and calls nothing back, and is not a function otherwise *)
      match err r with
      | Some _ =>
          match _collections this !! collectionName with
          | Some h => (this, [Send (CollCreate h collectionName true) KCollCreate])
          | None =>
              if bool_decide (collectionName = "constructor") then (this, [])
              else (this, [Raise TypeError])
          end
      | None => (this, [])
      end
  | KCollCreate =>
      (* lines 247-249 *)
      match err r with
      | Some e => (this, [ConsoleError e])
      | None => (this, [])
      end
  | KSet callback =>
      (* lines 133-136 *)
      match err r with
      | Some e => (this, [Invoke callback [AErr e; ARaw (res r)]])
      | None => (this, [Invoke callback [ANull; ATrue]])
      end
  | KGet callback =>
      (* lines 162-169 *)
      match err r, res r with
      | Some e, _ => (this, [Invoke callback [AErr e; ANull]])
      | None, PCursor records => (this, [Send (CursorNext records) (KGetNext callback)])
      | None, _ => (this, [Raise TypeError])
      end
  | KGetNext callback =>
      (* lines 164-168 *)
      let record :=
        match res r with
        | PRecord j | PInfo j => Some j
        | _ => None
        end in
      match err r, record with
      | Some _, _ | None, None => (this, [Invoke callback [ANull; ANull]])
      | None, Some j =>
          if truthy j
          then match transformValueFromStorage j with
               | Returns doc => (this, [Invoke callback [ANull; ADoc doc]])
               | Throws e => (this, [Raise e])
               end
          else (this, [Invoke callback [ANull; ANull]])
      end
  | KDelete callback =>
      (* lines 192-195 *)
      match err r with
      | Some e => (this, [Invoke callback [AErr e; ANull]])
      | None => (this, [Invoke callback [ANull; ATrue]])
      end
  end.

End Connector.

(** A handle stands for the target it is as a collection. *)
Coercion Connector.Collection : Connector.handle >-> Connector.target.

(** ** The connector against a document store *)

Module World.
Import Transform Connector.

(** Modelled from the spec: the document-store client of section 6, an
    external collaborator.  A database is a map from collection names to
    collections, a collection a map from primary keys to documents.  An
    upsert inserts or replaces by primary key, a point query returns at most
    the one document with that primary key, and the store adds its
    bookkeeping fields [_id] and [_rev] to what it hands out.  A query aimed
    at a value that is no collection fails. *)
Record store := Store {
  databases : list string;
  colls : gmap string (gmap string (gmap string json)) }.

Definition bookkeeping (coll _key : string) (doc : gmap string json)
  : gmap string json :=
  <["_rev" := JStr "_rev1"]> (<["_id" := JStr (coll +:+ "/" +:+ _key)]> doc).

Definition serve (db : store) (r : request) : store * reply :=
  match r with
  | ListUserDatabases => (db, ok (PNames (databases db)))
  | CreateDatabase name _ _ =>
      if bool_decide (name ∈ databases db)
      then (db, fail "duplicate database" PNone)
      else (Store (name :: databases db) (colls db), ok PNone)
  | UseDatabase name => (db, ok PNone)
  | CollGet h =>
      match colls db !! h_name h with
      | Some _ => (db, ok PNone)
      | None => (db, fail "collection not found" PNone)
      end
  | CollCreate h name _ =>
      match colls db !! name with
      | Some _ => (db, fail "duplicate name" PNone)
      | None => (Store (databases db) (<[name := ∅]> (colls db)), ok PNone)
      end
  | Upsert (Inherited _) _ _ | Select (Inherited _) _ | Remove (Inherited _) _ =>
      (db, fail "bind parameter is not a collection" PNone)
  | Upsert (Collection h) k doc =>
      match colls db !! h_name h with
      | Some c =>
          (Store (databases db)
                 (<[h_name h := <[k := bookkeeping (h_name h) k doc]> c]> (colls db)),
           ok (PCursor []))
      | None => (db, fail "collection not found" PNone)
      end
  | Select (Collection h) k =>
      match colls db !! h_name h with
      | Some c =>
          (db, ok (PCursor (match c !! k with
                            | Some doc => [JObj doc]
                            | None => []
                            end)))
      | None => (db, fail "collection not found" PNone)
      end
  | CursorNext records =>
      (db, ok (match records with
               | r :: _ => PRecord r
               | [] => PNone
               end))
  | Remove (Collection h) k =>
      match colls db !! h_name h with
      | Some c =>
          match c !! k with
          | Some _ =>
              (Store (databases db) (<[h_name h := base.delete k c]> (colls db)),
               ok PNone)
          | None => (db, fail "document not found" PNone)
          end
      | None => (db, fail "collection not found" PNone)
      end
  end.

(** The connector, the requests the driver has not answered yet, the store,
    and everything the connector has done so far, oldest first. *)
Record world := W {
  conn : connector;
  pending : list (request * kont);
  db : store;
  out : list action }.

Definition sends (acts : list action) : list (request * kont) :=
  omap (λ a, match a with
             | Send r k => Some (r, k)
             | _ => None
             end) acts.

Definition perform (w : world) (x : connector * list action) : world :=
  W (fst x) (pending w ++ sends (snd x)) (db w) (out w ++ snd x).

(** What can happen: the host calls a method, or the driver answers the
    [i]-th pending request, with an arbitrary reply ([Answer]) or with what
    the modelled store replies ([Served]). *)
Inductive event :=
| CallSet (key : string) (value : json) (callback : nat)
| CallGet (key : string) (callback : nat)
| CallDelete (key : string) (callback : nat)
| Answer (i : nat) (r : reply)
| Served (i : nat).

Definition step (w : world) (ev : event) : world :=
  match ev with
  | CallSet key value callback => perform w (set (conn w) key value callback)
  | CallGet key callback => perform w (get (conn w) key callback)
  | CallDelete key callback => perform w (delete (conn w) key callback)
  | Answer i r =>
      match pending w !! i with
      | Some (_, k) =>
          perform (W (conn w) (base.delete i (pending w)) (db w) (out w))
                  (handle_reply (conn w) k r)
      | None => w
      end
  | Served i =>
      match pending w !! i with
      | Some (q, k) =>
          let '(db', r) := serve (db w) q in
          perform (W (conn w) (base.delete i (pending w)) db' (out w))
                  (handle_reply (conn w) k r)
      | None => w
      end
  end.

Definition run (w : world) (evs : list event) : world := foldl step w evs.

(** [new Connector(options)] in front of the store [db]. *)
Definition boot (o : options) (db : store) : world :=
  perform (W (fst (new o)) [] db []) (new o).

Fixpoint count {A} (p : A → bool) (l : list A) : nat :=
  match l with
  | [] => 0
  | x :: l => (if p x then 1 else 0) + count p l
  end.

(** The creation requests, and the existence checks, issued for a name. *)
Definition is_create (name : string) (a : action) : bool :=
  match a with
  | Send (CollCreate _ n _) _ => bool_decide (n = name)
  | _ => false
  end.

Definition is_check (name : string) (a : action) : bool :=
  match a with
  | Send (CollGet h) _ => bool_decide (h_name h = name)
  | _ => false
  end.

Definition checks_for (name : string) (k : kont) : bool :=
  match k with
  | KCollGet n => bool_decide (n = name)
  | _ => false
  end.

Definition awaits_check (name : string) (p : request * kont) : bool :=
  checks_for name (snd p).

(** The argument lists a caller's callback has been invoked with so far. *)
Definition delivered (callback : nat) (acts : list action) : list (list arg) :=
  omap (λ a, match a with
             | Invoke c args => if (c =? callback)%nat then Some args else None
             | _ => None
             end) acts.

(** The primary keys of the upserts and of the point queries issued so far. *)
Definition upsert_keys (acts : list action) : list string :=
  omap (λ a, match a with
             | Send (Upsert _ k _) _ => Some k
             | _ => None
             end) acts.

Definition select_keys (acts : list action) : list string :=
  omap (λ a, match a with
             | Send (Select _ k) _ => Some k
             | _ => None
             end) acts.

(** How many entries the cache holds for a name: one or none. *)
Definition cached (name : string) (this : connector) : nat :=
  match _collections this !! name with
  | Some _ => 1
  | None => 0
  end.

(** What a method call, and what a driver callback, may do about the
    provisioning of the collection [name]; and the bookkeeping that every
    reachable world satisfies: an existence check is issued only together
    with a cache entry, and a creation request only in answer to one. *)
Definition call_effect (name : string) (this : connector)
    (x : connector * list action) : Prop :=
  cached name x.1 = cached name this + count (is_check name) x.2
  ∧ count (awaits_check name) (sends x.2) = count (is_check name) x.2
  ∧ count (is_create name) x.2 = 0
  ∧ ∀ m h, _collections this !! m = Some h → _collections x.1 !! m = Some h.

Definition reply_effect (name : string) (this : connector) (k : kont)
    (x : connector * list action) : Prop :=
  _collections x.1 = _collections this
  ∧ count (is_check name) x.2 = 0
  ∧ count (awaits_check name) (sends x.2) = 0
  ∧ (count (is_create name) x.2
     ≤ (if checks_for name k then 1 else 0))%nat.

Definition provisioning_inv (name : string) (w : world) : Prop :=
  (count (is_check name) (out w) ≤ cached name (conn w))%nat
  ∧ (count (awaits_check name) (pending w) + count (is_create name) (out w)
     ≤ count (is_check name) (out w))%nat.

End World.

(** ** Observations on values, connectors and runs *)

Module Observe.
Import Transform Connector World.

(** The value read by [value.__ds]: [undefined] when the input is not an
    object or has no such field. *)
Definition meta_field (v : json) : option json :=
  match v with
  | JObj m => m !! "__ds"
  | _ => None
  end.

(** The payload of a stored document: the array under [__dsList] if there
    is one, else the document without [__ds] and the bookkeeping fields. *)
Definition stored_payload (v : json) : json :=
  match v with
  | JObj doc =>
      match doc !! "__dsList" with
      | Some (JArr l) => JArr l
      | _ => JObj (stripped doc)
      end
  | _ => JNull
  end.

(** What [JSON.stringify] sees of a value handed back by
    [transformValueFromStorage]: a property set on an array object is not
    serialised. *)
Definition as_json (p : platform) : json :=
  match p with
  | Plain v => v
  | ArrayWithD elems _ => JArr elems
  end.

(** A stored document read with [transformValueFromStorage] and transformed
    again for storage. *)
Definition restore (doc : gmap string json) : outcome json :=
  obind (transformValueFromStorage (JObj doc))
        (λ p, transformValueForStorage (as_json p)).

(** A document without the fields the store keeps for itself. *)
Definition without_bookkeeping (doc : gmap string json) : gmap string json :=
  base.delete "_id" (base.delete "_rev" (base.delete "_key" doc)).

(** The cache holds every handle under the handle's own name, no name is
    empty, and no two names share a handle object. *)
Definition cache_wf (this : connector) : Prop :=
  _defaultCollection this ≠ EmptyString
  ∧ (∀ n h, _collections this !! n = Some h →
       h_name h = n ∧ n ≠ EmptyString ∧ (h_obj h < next_obj this)%nat)
  ∧ (∀ n n' h h', _collections this !! n = Some h → _collections this !! n' = Some h' →
       h_obj h = h_obj h' → n = n').

(** The method calls made with a callback, and the pending requests whose
    answer will reach it. *)
Definition is_call (callback : nat) (ev : event) : bool :=
  match ev with
  | CallSet _ _ c | CallGet _ c | CallDelete _ c => (c =? callback)%nat
  | _ => false
  end.

Definition owes (callback : nat) (p : request * kont) : bool :=
  match p.2 with
  | KSet c | KGet c | KGetNext c | KDelete c => (c =? callback)%nat
  | _ => false
  end.

(** The events emitted, and the pending requests of the bootstrap chain. *)
Definition is_emit (a : action) : bool :=
  match a with
  | Emit _ _ => true
  | _ => false
  end.

Definition is_event (name : string) (a : action) : bool :=
  match a with
  | Emit e _ => bool_decide (e = name)
  | _ => false
  end.

Definition boots (p : request * kont) : bool :=
  match p.2 with
  | KListed | KDbCreated | KUsed => true
  | _ => false
  end.

Definition bootstrap_inv (w : world) : Prop :=
  count is_emit (out w) + count boots (pending w) = 1
  ∧ count (is_event "ready") (out w) = (if isReady (conn w) then 1 else 0)
  ∧ (count (is_event "ready") (out w) ≤ count is_emit (out w))%nat.

Definition callback_inv (callback : nat) (n : nat) (w : world) : Prop :=
  (length (delivered callback (out w)) + count (owes callback) (pending w) ≤ n)%nat.

(** What one method call, made with the callback [cb'], adds for the
    callback [cb] and to the bootstrap. *)
Definition call_quota (cb cb' : nat) (this : connector) (x : connector * list action) : Prop :=
  (length (delivered cb x.2) + count (owes cb) (sends x.2)
   ≤ (if (cb' =? cb)%nat then 1 else 0))%nat
  ∧ count is_emit x.2 = 0 ∧ count boots (sends x.2) = 0
  ∧ isReady x.1 = isReady this.

(** The store after [set] wrote the storage document [doc] of collection
    [n], whose content was [c0], under the primary key [key]. *)
Definition written (n key : string) (db0 : store)
    (c0 : gmap string (gmap string json)) (doc : gmap string json) : store :=
  Store (databases db0)
        (<[n := <[key := bookkeeping n key (<["_key" := JStr key]> doc)]> c0]> (colls db0)).

(** What [get] does after its query, when the collection holds [found] under
    the key: it fetches the record, and hands the caller [null] or the
    transformed record. *)
Definition get_result (cb : nat) (found : option (gmap string json)) : list action :=
  match found with
  | None => [Send (CursorNext []) (KGetNext cb); Invoke cb [ANull; ANull]]
  | Some d =>
      [Send (CursorNext [JObj d]) (KGetNext cb);
       match transformValueFromStorage (JObj d) with
       | Returns v => Invoke cb [ANull; ADoc v]
       | Throws e => Raise e
       end]
  end.

(** The configuration fields of a connector. *)
Definition config (this : connector) : string * string * string * string * option string * string :=
  (_dbUrl this, _databaseName this, _databaseUser this, _databasePass this,
   _splitChar this, _defaultCollection this).

End Observe.

(** ** Structural facts about JSON values *)

Lemma json_size_elem l x : x ∈ l → json_size x < json_size (JArr l).
Proof. intros H. simpl. induction H; simpl; lia. Qed.

Lemma json_size_lookup (m : gmap string json) k x :
  m !! k = Some x → json_size x < json_size (JObj m).
Proof.
  intros H. simpl.
  rewrite <-(insert_delete_id m k x) by done.
  rewrite map_fold_insert_L.
  - lia.
  - intros. lia.
  - apply lookup_delete_eq.
Qed.

Lemma json_nested_ind (P : json → Prop) :
  P JNull → (∀ b, P (JBool b)) → (∀ n, P (JNum n)) → (∀ s, P (JStr s)) →
  (∀ l, Forall P l → P (JArr l)) →
  (∀ m : gmap string json, map_Forall (λ _, P) m → P (JObj m)) →
  ∀ v, P v.
Proof.
  intros HN HB HZ HS HA HO v.
  remember (json_size v) as n eqn:Hn.
  revert v Hn. induction n as [n IH] using lt_wf_ind. intros v ->.
  destruct v as [| | | |l|m]; auto.
  - apply HA, Forall_forall. intros x Hx.
    eapply IH; [|reflexivity]. by apply json_size_elem.
  - apply HO. intros k x Hk.
    eapply IH; [|reflexivity]. by eapply json_size_lookup.
Qed.

Lemma clone_id v : clone v = v.
Proof.
  induction v as [| | | |l IH|m IH] using json_nested_ind; simpl; try done.
  - f_equal. induction IH as [|x l Hx _ IHl]; simpl; [done|]. by rewrite Hx, IHl.
  - f_equal. apply map_eq. intros k. rewrite lookup_fmap.
    destruct (m !! k) as [x|] eqn:Hk; simpl; [|done].
    f_equal. by apply (IH k x).
Qed.

(** ** The envelope transformer *)

Section transformer.
Import Transform.

Lemma storage_of_array (m : gmap string json) l :
  m !! "_d" = Some (JArr l) →
  transformValueForStorage (JObj m)
  = Returns (JObj (<["__dsList" := JArr l]> (<["__ds" := JObj (delete "_d" m)]> ∅))).
Proof. intros H. unfold transformValueForStorage. by rewrite clone_id, H. Qed.

Lemma storage_of_object (m d : gmap string json) :
  m !! "_d" = Some (JObj d) →
  transformValueForStorage (JObj m)
  = Returns (JObj (<["__ds" := JObj (delete "_d" m)]> d)).
Proof. intros H. unfold transformValueForStorage. by rewrite clone_id, H. Qed.

Lemma stripped_lookup d k :
  k ≠ "__ds" → k ≠ "_key" → k ≠ "_rev" → k ≠ "_id" → stripped d !! k = d !! k.
Proof. intros. unfold stripped. by rewrite !lookup_delete_ne. Qed.

Lemma stripped_id d :
  stripped d = d ↔
  d !! "__ds" = None ∧ d !! "_key" = None ∧ d !! "_rev" = None ∧ d !! "_id" = None.
Proof.
  split.
  - intros H. rewrite <-H. unfold stripped.
    repeat split; repeat (rewrite lookup_delete_ne by done); apply lookup_delete_eq.
  - intros (H1 & H2 & H3 & H4). unfold stripped.
    rewrite (delete_id _ "__ds"), (delete_id _ "_key"), (delete_id _ "_rev") by done.
    by apply delete_id.
Qed.

Lemma reserved_free_object d :
  reserved_free (JObj d) = true ↔
  stripped d = d ∧ instanceof_Array (d !! "__dsList") = false.
Proof.
  rewrite stripped_id. simpl.
  rewrite !andb_true_iff, !bool_decide_eq_true, negb_true_iff. tauto.
Qed.

Lemma roundtrip_object (m d : gmap string json) :
  m !! "_d" = Some (JObj d) →
  roundtrip (JObj m)
  = Returns (Plain (JObj (<["_d" :=
      if instanceof_Array (d !! "__dsList")
      then default JNull (d !! "__dsList")
      else JObj (stripped d)]> (delete "_d" m)))).
Proof.
  intros H. unfold roundtrip. rewrite (storage_of_object _ _ H). simpl.
  unfold transformValueFromStorage. rewrite clone_id, lookup_insert_eq.
  rewrite delete_insert_eq. fold (stripped d).
  by rewrite stripped_lookup.
Qed.

Lemma roundtrip_array (m : gmap string json) l :
  m !! "_d" = Some (JArr l) → roundtrip (JObj m) = Returns (Plain (JObj m)).
Proof.
  intros H. unfold roundtrip. rewrite (storage_of_array _ _ H). simpl.
  unfold transformValueFromStorage. rewrite clone_id.
  rewrite lookup_insert_ne, lookup_insert_eq by done.
  repeat (rewrite lookup_delete_ne by done). rewrite lookup_insert_eq. simpl.
  by rewrite insert_delete_id.
Qed.

Lemma roundtrip_reserved_free (m : gmap string json) p :
  m !! "_d" = Some p → is_payload p = true → reserved_free p = true →
  roundtrip (JObj m) = Returns (Plain (JObj m)).
Proof.
  intros Hd Hp Hf. destruct p as [| | | |l|d]; try discriminate Hp.
  - by apply (roundtrip_array m l).
  - rewrite (roundtrip_object _ _ Hd).
    apply reserved_free_object in Hf as [Hs Ha]. rewrite Ha, Hs.
    by rewrite insert_delete_id.
Qed.

Lemma storage_is_object (m : gmap string json) p :
  m !! "_d" = Some p → is_payload p = true →
  ∃ doc, transformValueForStorage (JObj m) = Returns (JObj doc).
Proof.
  intros Hd Hp. destruct p; try discriminate Hp.
  - rewrite (storage_of_array _ _ Hd). eauto.
  - rewrite (storage_of_object _ _ Hd). eauto.
Qed.

Lemma fromStorage_stripped (doc : gmap string json) :
  transformValueFromStorage (JObj doc)
  = let d := if instanceof_Array (stripped doc !! "__dsList")
             then default JNull (stripped doc !! "__dsList")
             else JObj (stripped doc) in
    match doc !! "__ds" with
    | Some (JObj data) => Returns (Plain (JObj (<["_d" := d]> data)))
    | Some (JArr elems) => Returns (ArrayWithD elems d)
    | _ => Throws TypeError
    end.
Proof.
  unfold transformValueFromStorage. rewrite clone_id. fold (stripped doc).
  by destruct (doc !! "__ds") as [[]|].
Qed.

End transformer.

(** C2, as stated, fails: a payload object that carries a field named [_key]
    comes back without it. *)
Lemma roundtrip_loses_reserved_field :
  ¬ (∀ (m : gmap string json) (p : json),
        m !! "_d" = Some p → Transform.is_payload p = true →
        Transform.roundtrip (JObj m) = Returns (Transform.Plain (JObj m))).
Proof.
  intros H.
  specialize (H (<["_d" := JObj {["_key" := JStr "k1"]}]> {["_v" := JNum 1]})
                (JObj {["_key" := JStr "k1"]}) eq_refl eq_refl).
  vm_compute in H. discriminate H.
Qed.

(** C2, amended: for an object [m] whose field [_d] holds an array or an
    object, [transformValueFromStorage (transformValueForStorage m)] returns a
    value equal to [m] exactly when the payload is an array, or is an object
    with no own field named [__ds], [_key], [_rev] or [_id] and no array under
    [__dsList].  The sibling metadata fields are arbitrary. *)
Theorem roundtrip_iff_reserved_free (m : gmap string json) (p : json) :
  m !! "_d" = Some p → Transform.is_payload p = true →
  Transform.roundtrip (JObj m) = Returns (Transform.Plain (JObj m))
  ↔ Transform.reserved_free p = true.
Proof.
  intros Hd Hp. destruct p as [| | | |l|d]; try discriminate Hp.
  - rewrite (roundtrip_array _ _ Hd). done.
  - rewrite (roundtrip_object _ _ Hd), reserved_free_object. split.
    + intros H. assert (Hl := f_equal (λ o, match o with
                                            | Returns (Transform.Plain (JObj x)) => x !! "_d"
                                            | _ => None
                                            end) H).
      simpl in Hl. rewrite lookup_insert_eq, Hd in Hl.
      destruct (instanceof_Array (d !! "__dsList")) eqn:Ha.
      * destruct (d !! "__dsList") as [[]|]; simpl in *; congruence.
      * split; congruence.
    + intros H. rewrite <-(roundtrip_object _ _ Hd).
      apply (roundtrip_reserved_free m (JObj d)); [done|done|].
      by apply reserved_free_object.
Qed.

Lemma roundtrip_iff_reserved_free_witness :
  let m : gmap string json :=
    <["_d" := JObj {["v" := JNum 10]}]> {["firstname" := JStr "Wolfram"]} in
  m !! "_d" = Some (JObj {["v" := JNum 10]})
  ∧ Transform.is_payload (JObj {["v" := JNum 10]}) = true
  ∧ Transform.roundtrip (JObj m) = Returns (Transform.Plain (JObj m)).
Proof.
  intros m. split; [reflexivity|]. split; [reflexivity|].
  apply (roundtrip_iff_reserved_free m (JObj {["v" := JNum 10]}));
    vm_compute; reflexivity.
Defined.

(** C10: [transformValueForStorage] throws a TypeError on every input whose
    [_d] field is absent or holds a primitive, and returns a storage document
    exactly when [_d] holds an object or an array. *)
Theorem transformValueForStorage_partial (v : json) :
  ((Transform.payload_field v = None
    ∨ ∃ p, Transform.payload_field v = Some p ∧ Transform.is_payload p = false) →
   Transform.transformValueForStorage v = Throws TypeError)
  ∧ ((∃ doc, Transform.transformValueForStorage v = Returns doc)
     ↔ ∃ p, Transform.payload_field v = Some p ∧ Transform.is_payload p = true).
Proof.
  unfold Transform.transformValueForStorage. rewrite clone_id.
  destruct v as [| | | |l|m]; simpl;
    try (split; [done | split; [intros [? ?]; done | intros (? & ? & ?); done]]).
  destruct (m !! "_d") as [[| | | |l|d]|] eqn:Hd; simpl.
  all: split; [ intros [?|(p & Hp & Hq)]; simplify_eq; done
              | split; [intros [doc Hdoc]; simplify_eq; eauto
                       | intros (p & Hp & Hq); simplify_eq; eauto ] ].
Qed.

Lemma transformValueForStorage_partial_witness :
  (∃ p, Transform.payload_field (JObj {["_d" := JNum 5]}) = Some p
        ∧ Transform.is_payload p = false)
  ∧ Transform.transformValueForStorage (JObj {["_d" := JNum 5]}) = Throws TypeError.
Proof.
  assert (H : ∃ p, Transform.payload_field (JObj {["_d" := JNum 5]}) = Some p
                   ∧ Transform.is_payload p = false)
    by (exists (JNum 5); split; reflexivity).
  split; [exact H|].
  exact (proj1 (transformValueForStorage_partial (JObj {["_d" := JNum 5]})) (or_intror H)).
Defined.

(** ** Key routing *)

Section strings.
Import Connector.

Lemma prefix_empty s : String.prefix EmptyString s = true.
Proof. by destruct s. Qed.

Lemma prefix_char c a s :
  String.prefix (String c EmptyString) (String a s) = bool_decide (c = a).
Proof.
  simpl. destruct (ascii_dec c a).
  - rewrite prefix_empty. by rewrite bool_decide_eq_true_2.
  - by rewrite bool_decide_eq_false_2.
Qed.

Lemma absent_cons c a s :
  (∀ j, String.get j (String a s) ≠ Some c) →
  a ≠ c ∧ ∀ j, String.get j s ≠ Some c.
Proof.
  intros H. split.
  - intros ->. by apply (H 0).
  - intros j. apply (H (S j)).
Qed.

Lemma indexOf_from_cons pat a s i :
  indexOf_from pat (String a s) i
  = if String.prefix pat (String a s) then i else indexOf_from pat s (i + 1).
Proof. reflexivity. Qed.

Lemma indexOf_from_absent c s i :
  (∀ j, String.get j s ≠ Some c) → indexOf_from (String c EmptyString) s i = (-1)%Z.
Proof.
  revert i. induction s as [|a s IH]; intros i H; [done|].
  apply absent_cons in H as [Ha Hs].
  rewrite indexOf_from_cons, prefix_char, bool_decide_eq_false_2 by congruence.
  by apply IH.
Qed.

Lemma indexOf_from_first c pre post i :
  (∀ j, String.get j pre ≠ Some c) →
  indexOf_from (String c EmptyString) (pre +:+ String c post) i
  = (i + Z.of_nat (String.length pre))%Z.
Proof.
  revert i. induction pre as [|a pre IH]; intros i H.
  - change (EmptyString +:+ String c post) with (String c post).
    rewrite indexOf_from_cons, prefix_char, bool_decide_eq_true_2 by done.
    simpl. lia.
  - apply absent_cons in H as [Ha Hs].
    change (String a pre +:+ String c post) with (String a (pre +:+ String c post)).
    rewrite indexOf_from_cons, prefix_char, bool_decide_eq_false_2 by congruence.
    rewrite IH by done. cbn [String.length]. lia.
Qed.

Lemma append_nil t : EmptyString +:+ t = t.
Proof. reflexivity. Qed.

Lemma append_cons a s t : String a s +:+ t = String a (s +:+ t).
Proof. reflexivity. Qed.

Lemma length_append s t :
  String.length (s +:+ t) = String.length s + String.length t.
Proof. induction s; rewrite ?append_nil, ?append_cons; simpl; lia. Qed.

Lemma substring_whole s : String.substring 0 (String.length s) s = s.
Proof. induction s; simpl; congruence. Qed.

Lemma substring_head pre rest :
  String.substring 0 (String.length pre) (pre +:+ rest) = pre.
Proof.
  induction pre; rewrite ?append_nil, ?append_cons; simpl; [by destruct rest | congruence].
Qed.

Lemma substring_tail pre rest n :
  String.substring (String.length pre) n (pre +:+ rest) = String.substring 0 n rest.
Proof. induction pre; rewrite ?append_nil, ?append_cons; simpl; [done | congruence]. Qed.

Lemma js_substring_in_range s a b :
  (a ≤ b ≤ String.length s)%nat → js_substring s a b = String.substring a (b - a) s.
Proof.
  intros H. unfold js_substring.
  rewrite (Nat.min_l a (String.length s)), (Nat.min_l b (String.length s)) by lia.
  by rewrite (Nat.min_l a b), (Nat.max_r a b) by lia.
Qed.

Lemma js_substring_before pre c post :
  js_substring (pre +:+ String c post) 0 (String.length pre) = pre.
Proof.
  rewrite js_substring_in_range by (rewrite length_append; lia).
  rewrite Nat.sub_0_r. apply substring_head.
Qed.

Lemma js_substring_after pre c post :
  js_substring (pre +:+ String c post) (S (String.length pre))
               (String.length (pre +:+ String c post)) = post.
Proof.
  rewrite js_substring_in_range by (rewrite length_append; simpl; lia).
  rewrite length_append. cbn [String.length].
  replace (String.length pre + S (String.length post) - S (String.length pre))
    with (String.length post) by lia.
  replace (pre +:+ String c post) with ((pre +:+ String c EmptyString) +:+ post).
  2:{ clear. induction pre; rewrite ?append_nil, ?append_cons; [done | congruence]. }
  replace (S (String.length pre)) with (String.length (pre +:+ String c EmptyString)).
  2:{ rewrite length_append. simpl. lia. }
  rewrite substring_tail. apply substring_whole.
Qed.

Lemma length_pos s : s ≠ EmptyString → 0 < String.length s.
Proof. destruct s; [done | simpl; lia]. Qed.

End strings.

(** [_getParams] fails exactly where [route] does, and otherwise hands the
    routed collection name to [_getCollection] and passes the id on. *)
Lemma _getParams_route (this : Connector.connector) (key : string) :
  Connector._getParams this key
  = match Connector.route this key with
    | None => (None, this, [])
    | Some (collectionName, id) =>
        (Some (Connector.Params (Connector._getCollection this collectionName).1.1 id),
         (Connector._getCollection this collectionName).1.2,
         (Connector._getCollection this collectionName).2)
    end.
Proof.
  unfold Connector._getParams. destruct (Connector.route this key) as [[n i]|]; [|done].
  by destruct (Connector._getCollection this n) as [[h t] a].
Qed.

Section routing.
Import Connector.
Variables (this : connector) (c : ascii).
Hypothesis configured : _splitChar this = Some (String c EmptyString).

Lemma route_absent k :
  (∀ j, String.get j k ≠ Some c) → route this k = Some (_defaultCollection this, k).
Proof.
  intros H. unfold route, indexOf. rewrite configured. simpl.
  by rewrite indexOf_from_absent.
Qed.

Lemma route_first pre post :
  (∀ j, String.get j pre ≠ Some c) → pre ≠ EmptyString →
  route this (pre +:+ String c post) = Some (pre, post).
Proof.
  intros H Hpre. unfold route, indexOf. rewrite configured. simpl.
  rewrite indexOf_from_first by done.
  apply length_pos in Hpre.
  destruct (Z.eqb_spec (0 + Z.of_nat (String.length pre)) 0); [lia|].
  destruct (Z.eqb_spec (0 + Z.of_nat (String.length pre)) (-1)); [lia|].
  replace (Z.to_nat (0 + Z.of_nat (String.length pre))) with (String.length pre) by lia.
  replace (Z.to_nat (0 + Z.of_nat (String.length pre) + 1))
    with (S (String.length pre)) by lia.
  by rewrite js_substring_before, js_substring_after.
Qed.

Lemma route_leading rest : route this (String c rest) = None.
Proof.
  unfold route, indexOf. rewrite configured.
  change (ToString (Some (String c EmptyString))) with (String c EmptyString).
  by rewrite indexOf_from_cons, prefix_char, bool_decide_eq_true_2.
Qed.

End routing.

(** A single character given as the [splitChar] option is what the
    constructor stores, and nothing a connector does changes it. *)
Lemma new_single_char (o : Connector.options) (c : ascii) :
  Connector.splitChar o = Some (String c EmptyString) →
  Connector._splitChar (Connector.new o).1 = Some (String c EmptyString).
Proof. intros H. simpl. by rewrite H. Qed.

(** C3: with a single-character delimiter [c] configured, a key in which [c]
    does not occur routes to the default collection with the whole key as the
    document id; a key [pre c post] whose first [c] comes after the non-empty
    [pre] routes to collection [pre] with document id [post], whatever [post]
    holds; a key that starts with [c] does not route (invalid key). *)
Theorem route_single_char (this : Connector.connector) (c : ascii) (k : string) :
  Connector._splitChar this = Some (String c EmptyString) →
  ((∀ j, String.get j k ≠ Some c) →
   Connector.route this k = Some (Connector._defaultCollection this, k))
  ∧ (∀ pre post, k = pre +:+ String c post →
       (∀ j, String.get j pre ≠ Some c) → pre ≠ EmptyString →
       Connector.route this k = Some (pre, post))
  ∧ (∀ rest, k = String c rest → Connector.route this k = None).
Proof.
  intros Hc. split; [|split].
  - by apply route_absent.
  - intros pre post ->. by apply route_first.
  - intros rest ->. by apply route_leading.
Qed.

Lemma route_single_char_witness :
  let this := (Connector.new (Connector.Options None None None None None (Some "/"))).1 in
  Connector.route this "abc123" = Some ("deepstream_docs", "abc123")
  ∧ Connector.route this "user/abc/123" = Some ("user", "abc/123")
  ∧ Connector.route this "/abc" = None.
Proof.
  intros this.
  pose proof (route_single_char this "/"%char "abc123" eq_refl) as (H1 & _ & _).
  pose proof (route_single_char this "/"%char "user/abc/123" eq_refl) as (_ & H2 & _).
  pose proof (route_single_char this "/"%char "/abc" eq_refl) as (_ & _ & H3).
  split; [|split].
  - apply H1. intros [|[|[|[|[|[|j]]]]]]; simpl; congruence.
  - apply (H2 "user" "abc/123"); [reflexivity| |discriminate].
    intros [|[|[|[|j]]]]; simpl; congruence.
  - by apply (H3 "abc").
Defined.

(** C4: with no [splitChar] option the constructor stores [null], and
    [indexOf] then searches the key for the text of [null]: a key that starts
    with those four characters does not route (invalid key), and a key that
    holds them further on is split there.  The claim promises the default
    collection and the whole key for both. *)
Theorem route_without_delimiter_searches_null :
  let this := (Connector.new (Connector.Options None None None None None None)).1 in
  Connector._splitChar this = None
  ∧ Connector._getParams this "nullable" = (None, this, [])
  ∧ Connector.route this "xnully" = Some ("x", "ully")
  ∧ Connector.route this "abc123" = Some ("deepstream_docs", "abc123").
Proof. repeat split. Qed.

(** C5, as stated, fails: with a delimiter configured the empty key routes. *)
Lemma route_empty_key_succeeds :
  ¬ (∀ (this : Connector.connector) (c : ascii),
        Connector._splitChar this = Some (String c EmptyString) →
        Connector.route this EmptyString = None
        ∧ Connector.route this (String c EmptyString) = None).
Proof.
  intros H.
  destruct (H (Connector.new (Connector.Options None None None None None (Some "/"))).1
              "/"%char eq_refl) as [H1 _].
  discriminate H1.
Qed.

(** C5, amended: with a single-character delimiter configured, the key equal
    to the delimiter alone does not route (invalid key), while the empty key
    routes to the default collection with the empty document id. *)
Theorem route_delimiter_alone_and_empty (this : Connector.connector) (c : ascii) :
  Connector._splitChar this = Some (String c EmptyString) →
  Connector.route this (String c EmptyString) = None
  ∧ Connector.route this EmptyString = Some (Connector._defaultCollection this, EmptyString).
Proof.
  intros Hc. split.
  - by apply route_leading.
  - apply (route_absent this c Hc). by intros [].
Qed.

Lemma route_delimiter_alone_and_empty_witness :
  let this := (Connector.new (Connector.Options None None None None None (Some "/"))).1 in
  Connector._splitChar this = Some "/"
  ∧ Connector.route this "/" = None
  ∧ Connector.route this EmptyString = Some ("deepstream_docs", EmptyString).
Proof.
  intros this. split; [reflexivity|].
  exact (route_delimiter_alone_and_empty this "/"%char eq_refl).
Defined.

(** ** The callbacks of [get] and of collection creation *)

(** C6, as stated, fails: an error reported for the query of [get] is handed
    to the caller's callback. *)
Lemma get_query_fault_reaches_callback :
  ¬ (∀ (this : Connector.connector) (callback : nat) (e : Connector.error)
       (p : Connector.payload),
        (Connector.handle_reply this (Connector.KGet callback) (Connector.fail e p)).2
        = [Connector.Invoke callback [Connector.ANull; Connector.ANull]]).
Proof.
  intros H.
  specialize (H (Connector.new (Connector.Options None None None None None None)).1
                7 "boom" Connector.PNone).
  discriminate H.
Qed.

(** C6, amended: for a key that routes, [get] issues the point query with its
    own callback; when the query reports an error [e] the caller's callback
    receives [(e, null)]; when the query succeeds, the connector asks the
    cursor for the next record, and an error of that fetch, or no record,
    gives the caller [(null, null)]. *)
Theorem get_fault_outcomes (this : Connector.connector) (key : string) (callback : nat) :
  Connector.route this key ≠ None →
  (∃ h this' pre,
      Connector.get this key callback
      = (this', pre ++ [Connector.Send (Connector.Select h key) (Connector.KGet callback)]))
  ∧ (∀ th e p,
        Connector.handle_reply th (Connector.KGet callback) (Connector.fail e p)
        = (th, [Connector.Invoke callback [Connector.AErr e; Connector.ANull]]))
  ∧ (∀ th records,
        Connector.handle_reply th (Connector.KGet callback)
          (Connector.ok (Connector.PCursor records))
        = (th, [Connector.Send (Connector.CursorNext records) (Connector.KGetNext callback)]))
  ∧ (∀ th e p,
        Connector.handle_reply th (Connector.KGetNext callback) (Connector.fail e p)
        = (th, [Connector.Invoke callback [Connector.ANull; Connector.ANull]]))
  ∧ (∀ th,
        Connector.handle_reply th (Connector.KGetNext callback)
          (Connector.ok Connector.PNone)
        = (th, [Connector.Invoke callback [Connector.ANull; Connector.ANull]])).
Proof.
  intros Hr. split; [|repeat split].
  unfold Connector.get. rewrite _getParams_route.
  destruct (Connector.route this key) as [[n i]|]; [|done]. eauto.
Qed.

Lemma get_fault_outcomes_witness :
  let this := (Connector.new (Connector.Options None None None None None None)).1 in
  Connector.route this "someValue" ≠ None
  ∧ Connector.handle_reply this (Connector.KGet 7) (Connector.fail "boom" Connector.PNone)
    = (this, [Connector.Invoke 7 [Connector.AErr "boom"; Connector.ANull]]).
Proof.
  intros this.
  assert (H : Connector.route this "someValue" ≠ None) by discriminate.
  split; [exact H|].
  destruct (get_fault_outcomes this "someValue" 7 H) as (_ & H2 & _).
  apply H2.
Defined.

(** C9, as stated, fails: a failed collection creation emits no error event. *)
Lemma creation_failure_emits_no_event :
  ¬ (∀ (this : Connector.connector) (e : Connector.error) (p : Connector.payload),
        Connector.Emit "error" (Some e)
        ∈ (Connector.handle_reply this Connector.KCollCreate (Connector.fail e p)).2).
Proof.
  intros H.
  specialize (H (Connector.new (Connector.Options None None None None None None)).1
                "boom" Connector.PNone).
  simpl in H. apply list_elem_of_singleton in H. discriminate H.
Qed.

(** C9, amended: the callback of a creation request is the closure of lines
    247-249, which captures no caller's callback; when the creation fails
    with [e], all it does is write [e] to the console error log: no callback
    of a [set], [get] or [delete] call is invoked, and no event is emitted. *)
Theorem creation_failure_logged_only
    (this : Connector.connector) (e : Connector.error) (p : Connector.payload) :
  Connector.handle_reply this Connector.KCollCreate (Connector.fail e p)
  = (this, [Connector.ConsoleError e])
  ∧ (∀ th k r h name b k',
        Connector.Send (Connector.CollCreate h name b) k' ∈ (Connector.handle_reply th k r).2 →
        k' = Connector.KCollCreate)
  ∧ (∀ callback args,
        Connector.Invoke callback args
        ∉ (Connector.handle_reply this Connector.KCollCreate (Connector.fail e p)).2)
  ∧ (∀ event x,
        Connector.Emit event x
        ∉ (Connector.handle_reply this Connector.KCollCreate (Connector.fail e p)).2).
Proof.
  split; [done|]. split; [|split].
  - intros th k [er pr] h name b k' H.
    destruct k, er, pr; simpl in H;
      repeat match goal with
             | H : context [bool_decide ?P] |- _ => destruct (bool_decide P)
             | H : context [Connector._collections ?t !! ?n] |- _ =>
                 destruct (Connector._collections t !! n)
             | H : context [truthy ?j] |- _ => destruct (truthy j)
             | H : context [Transform.transformValueFromStorage ?j] |- _ =>
                 destruct (Transform.transformValueFromStorage j)
             end; simpl in H;
      try (apply list_elem_of_singleton in H; by simplify_eq);
      by apply not_elem_of_nil in H.
  - intros callback args H. simpl in H. apply list_elem_of_singleton in H. discriminate H.
  - intros event x H. simpl in H. apply list_elem_of_singleton in H. discriminate H.
Qed.

Lemma creation_failure_logged_only_witness :
  let this := (Connector.get
                 (Connector.new (Connector.Options None None None None None (Some "/"))).1
                 "user/abc" 1).1 in
  let r := Connector.fail "not found" Connector.PNone in
  Connector.Send (Connector.CollCreate (Connector.Handle "user" 0) "user" true)
                 Connector.KCollCreate
  ∈ (Connector.handle_reply this (Connector.KCollGet "user") r).2
  ∧ Connector.KCollCreate = Connector.KCollCreate.
Proof.
  intros this r.
  assert (H : Connector.Send (Connector.CollCreate (Connector.Handle "user" 0) "user" true)
                Connector.KCollCreate
              ∈ (Connector.handle_reply this (Connector.KCollGet "user") r).2).
  { vm_compute. apply list_elem_of_here. }
  split; [exact H|].
  exact (proj1 (proj2 (creation_failure_logged_only this "boom" Connector.PNone))
           this _ r _ _ _ _ H).
Defined.

(** ** The connector's methods *)

(** C7: on a key that does not route, each of [set], [get] and [delete]
    invokes the caller's callback, within the call itself, with the message
    naming the invalid key, and does nothing else: no request is sent, and the
    connector, the pending requests and the store are as before. *)
Theorem invalid_key_no_io (w : World.world) (key : string) (value : json) (callback : nat) :
  Connector.route (World.conn w) key = None →
  let w' := World.W (World.conn w) (World.pending w) (World.db w)
              (World.out w ++ [Connector.Invoke callback
                                 [Connector.AStr ("Invalid key " +:+ key)]]) in
  World.step w (World.CallSet key value callback) = w'
  ∧ World.step w (World.CallGet key callback) = w'
  ∧ World.step w (World.CallDelete key callback) = w'.
Proof.
  intros Hr. unfold World.step, Connector.set, Connector.get, Connector.delete.
  rewrite _getParams_route, Hr. unfold World.perform. simpl.
  by rewrite app_nil_r.
Qed.

Lemma invalid_key_no_io_witness :
  let w := World.boot (Connector.Options None None None None None (Some "/"))
             (World.Store ["deepstream"] ∅) in
  Connector.route (World.conn w) "/abc" = None
  ∧ World.step w (World.CallSet "/abc" (JObj {["_d" := JObj ∅]}) 3)
    = World.W (World.conn w) (World.pending w) (World.db w)
        (World.out w ++ [Connector.Invoke 3 [Connector.AStr "Invalid key /abc"]]).
Proof.
  intros w. split; [reflexivity|].
  exact (proj1 (invalid_key_no_io w "/abc" (JObj {["_d" := JObj ∅]}) 3 eq_refl)).
Defined.

(** ** [set] followed by [get] *)

Section set_get.
Import Transform Connector World.

Lemma stripped_bookkeeping coll k x (doc : gmap string json) :
  stripped (bookkeeping coll k (<["_key" := x]> doc)) = stripped doc.
Proof.
  apply map_eq. intros i. unfold stripped, bookkeeping.
  destruct (decide (i = "_id")) as [->|?]; [by rewrite !lookup_delete_eq|].
  destruct (decide (i = "_rev")) as [->|?];
    [by rewrite !(lookup_delete_ne _ "_id"), !lookup_delete_eq|].
  destruct (decide (i = "_key")) as [->|?];
    [by rewrite !(lookup_delete_ne _ "_id"), !(lookup_delete_ne _ "_rev"), !lookup_delete_eq|].
  destruct (decide (i = "__ds")) as [->|?].
  { by rewrite !(lookup_delete_ne _ "_id"), !(lookup_delete_ne _ "_rev"),
       !(lookup_delete_ne _ "_key"), !lookup_delete_eq. }
  rewrite !lookup_delete_ne by done. by rewrite !lookup_insert_ne.
Qed.

Lemma fromStorage_bookkeeping coll k x (doc : gmap string json) :
  transformValueFromStorage (JObj (bookkeeping coll k (<["_key" := x]> doc)))
  = transformValueFromStorage (JObj doc).
Proof.
  rewrite !fromStorage_stripped, stripped_bookkeeping.
  unfold bookkeeping. by rewrite !lookup_insert_ne.
Qed.

Lemma served_last this ps q k db0 o :
  step (W this (ps ++ [(q, k)]) db0 o) (Served (length ps))
  = perform (W this ps (serve db0 q).1 o) (handle_reply this k (serve db0 q).2).
Proof.
  unfold step. cbn [pending conn db out].
  rewrite lookup_app_r, Nat.sub_diag by lia. cbn [lookup list_lookup].
  rewrite delete_middle, app_nil_r. by destruct (serve db0 q).
Qed.

(** X15: where the routed document id is the key itself, the collection
    exists and its handle is cached, and the payload uses no reserved field
    name, [set] followed by [get], each served by the store in turn, reports
    success for [set] and hands [get]'s caller the value that was set. *)
Lemma set_then_get_plain_key (w : world) n h c0 key (m : gmap string json) p cb1 cb2 :
  route (conn w) key = Some (n, key) →
  _collections (conn w) !! n = Some h → h_name h = n →
  colls (db w) !! n = Some c0 →
  m !! "_d" = Some p → is_payload p = true → reserved_free p = true →
  let i := length (pending w) in
  ∃ doc,
    run w [CallSet key (JObj m) cb1; Served i; CallGet key cb2; Served i; Served i]
    = W (conn w) (pending w)
        (Store (databases (db w)) (<[n := <[key := bookkeeping n key doc]> c0]> (colls (db w))))
        (out w ++ [Send (Upsert h key doc) (KSet cb1);
                   Invoke cb1 [ANull; ATrue];
                   Send (Select h key) (KGet cb2);
                   Send (CursorNext [JObj (bookkeeping n key doc)]) (KGetNext cb2);
                   Invoke cb2 [ANull; ADoc (Plain (JObj m))]]).
Proof.
  intros Hr Hc Hh Hdb Hd Hp Hf i.
  destruct (storage_is_object m p Hd Hp) as [doc Hto].
  pose proof (roundtrip_reserved_free m p Hd Hp Hf) as Hfrom.
  unfold roundtrip in Hfrom. rewrite Hto in Hfrom. cbn [obind] in Hfrom.
  destruct w as [this ps db0 o]. cbn [conn pending db out] in *. subst i.
  exists (<["_key" := JStr key]> doc).
  set (bk := bookkeeping n key (<["_key" := JStr key]> doc)).
  unfold run. cbn [foldl].
  assert (E1 : step (W this ps db0 o) (CallSet key (JObj m) cb1)
               = W this (ps ++ [(Upsert h key (<["_key" := JStr key]> doc), KSet cb1)]) db0
                   (o ++ [Send (Upsert h key (<["_key" := JStr key]> doc)) (KSet cb1)])).
  { unfold step, set. rewrite _getParams_route. cbn [conn]. rewrite Hr.
    unfold _getCollection. rewrite Hc. cbn [fst snd]. by rewrite Hto. }
  set (db1 := Store (databases db0) (<[n := <[key := bk]> c0]> (colls db0))).
  assert (S2 : serve db0 (Upsert h key (<["_key" := JStr key]> doc)) = (db1, ok (PCursor []))).
  { cbn [serve]. by rewrite Hh, Hdb. }
  assert (S4 : serve db1 (Select h key) = (db1, ok (PCursor [JObj bk]))).
  { cbn [serve]. rewrite Hh. unfold db1. cbn [colls].
    by rewrite lookup_insert_eq, lookup_insert_eq. }
  assert (E3 : ∀ o', step (W this ps db1 o') (CallGet key cb2)
               = W this (ps ++ [(Select h key, KGet cb2)]) db1
                   (o' ++ [Send (Select h key) (KGet cb2)])).
  { intros o'. unfold step, get. rewrite _getParams_route. cbn [conn]. rewrite Hr.
    unfold _getCollection. by rewrite Hc. }
  rewrite E1, served_last, S2. cbn [fst snd handle_reply err res ok].
  unfold perform at 1. cbn [fst snd sends omap list_omap pending db out conn].
  rewrite app_nil_r.
  rewrite E3, served_last, S4. cbn [fst snd handle_reply err res ok].
  unfold perform at 1. cbn [fst snd sends omap list_omap pending db out conn].
  rewrite served_last.
  cbn [serve fst snd handle_reply err res ok truthy].
  unfold db1, bk. rewrite fromStorage_bookkeeping, Hfrom.
  unfold perform. cbn [fst snd sends omap list_omap pending db out conn].
  rewrite app_nil_r, <-!app_assoc. reflexivity.
Qed.

(** With a delimiter in the key, [set] writes under the routed id and [get]
    asks for the whole key, and the two differ. *)
Lemma set_get_keys_disagree this c pre post v doc cb1 cb2 :
  _splitChar this = Some (String c EmptyString) →
  (∀ j, String.get j pre ≠ Some c) → pre ≠ EmptyString →
  transformValueForStorage v = Returns (JObj doc) →
  upsert_keys (set this (pre +:+ String c post) v cb1).2 = [post]
  ∧ select_keys (get this (pre +:+ String c post) cb2).2 = [pre +:+ String c post]
  ∧ pre +:+ String c post ≠ post.
Proof.
  intros Hc Hpre Hne Hto.
  pose proof (route_first this c Hc pre post Hpre Hne) as Hr.
  unfold set, get. rewrite !_getParams_route, Hr, Hto.
  unfold _getCollection, upsert_keys, select_keys.
  split; [|split].
  - by destruct (_collections this !! pre); [|destruct (inherited pre)].
  - by destruct (_collections this !! pre); [|destruct (inherited pre)].
  - intros H. apply (f_equal String.length) in H.
    rewrite length_append in H. simpl in H. lia.
Qed.

End set_get.

(** The scenario of the test suite, with no delimiter configured: a value
    that was set is read back, and after [delete] the key reads as [null]. *)
Example test_suite_scenario :
  let v := JObj (<["_d" := JObj {["v" := JNum 10]}]> {["firstname" := JStr "Wolfram"]}) in
  let w := World.run
             (World.boot (Connector.Options None None None None None None)
                (World.Store ["deepstream"] ∅))
             [World.Served 0; World.Served 0;
              World.CallGet "impossibleMissingValue" 1;
              World.Served 0; World.Served 1; World.Served 0; World.Served 0;
              World.CallSet "someValue" v 2; World.Served 0;
              World.CallGet "someValue" 3; World.Served 0; World.Served 0;
              World.CallDelete "someValue" 4; World.Served 0;
              World.CallGet "someValue" 5; World.Served 0; World.Served 0] in
  World.delivered 1 (World.out w) = [[Connector.ANull; Connector.ANull]]
  ∧ World.delivered 2 (World.out w) = [[Connector.ANull; Connector.ATrue]]
  ∧ World.delivered 3 (World.out w)
    = [[Connector.ANull; Connector.ADoc (Transform.Plain v)]]
  ∧ World.delivered 4 (World.out w) = [[Connector.ANull; Connector.ATrue]]
  ∧ World.delivered 5 (World.out w) = [[Connector.ANull; Connector.ANull]].
Proof. repeat split; vm_compute; reflexivity. Qed.

(** C1: with the delimiter [/] configured, [set] of the key [user/abc] stores
    the document in collection [user] under the primary key [abc], and [get]
    of the same key then asks that collection for the primary key [user/abc]:
    the store finds nothing and the caller receives [(null, null)], not the
    value that was set. *)
Theorem set_then_get_split_key :
  let v := JObj (<["_d" := JObj {["v" := JNum 10]}]> {["firstname" := JStr "Wolfram"]}) in
  let w := World.run
             (World.boot (Connector.Options None None None None None (Some "/"))
                (World.Store ["deepstream"] ∅))
             [World.Served 0; World.Served 0;
              World.CallSet "user/abc" v 1;
              World.Served 0; World.Served 1; World.Served 0;
              World.CallGet "user/abc" 2;
              World.Served 0; World.Served 0] in
  World.delivered 1 (World.out w) = [[Connector.ANull; Connector.ATrue]]
  ∧ World.upsert_keys (World.out w) = ["abc"]
  ∧ World.select_keys (World.out w) = ["user/abc"]
  ∧ (∃ doc, World.colls (World.db w) !! "user" = Some {["abc" := doc]})
  ∧ World.delivered 2 (World.out w) = [[Connector.ANull; Connector.ANull]]
  ∧ World.pending w = [].
Proof.
  repeat split; try (vm_compute; reflexivity).
  eexists. vm_compute. reflexivity.
Qed.

(** ** Collection provisioning *)

Section provisioning.
Import Transform Connector World.
Variable name : string.

Lemma count_app {A} (p : A → bool) l1 l2 :
  count p (l1 ++ l2) = count p l1 + count p l2.
Proof. induction l1; simpl; lia. Qed.

Lemma count_delete {A} (p : A → bool) (l : list A) i x :
  l !! i = Some x → count p (base.delete i l) + (if p x then 1 else 0) = count p l.
Proof.
  revert i. induction l as [|y l IH]; intros [|i] H; simplify_eq/=; [lia|].
  specialize (IH _ H). lia.
Qed.

Lemma sends_app a b : sends (a ++ b) = sends a ++ sends b.
Proof. apply omap_app. Qed.

Lemma _getCollection_effect this n :
  call_effect name this ((_getCollection this n).1.2, (_getCollection this n).2).
Proof.
  unfold call_effect, _getCollection, cached.
  destruct (_collections this !! n) as [h|] eqn:Hn;
    [|destruct (inherited n)]; simpl; unfold awaits_check; simpl.
  - repeat split; auto; lia.
  - repeat split; auto; lia.
  - destruct (decide (n = name)) as [->|Hne].
    + rewrite lookup_insert_eq, Hn, !bool_decide_eq_true_2 by done.
      repeat split; try lia. intros m h Hm. rewrite lookup_insert_ne; congruence.
    + rewrite lookup_insert_ne, !bool_decide_eq_false_2 by done.
      repeat split; try lia. intros m h Hm. rewrite lookup_insert_ne; congruence.
Qed.

(** Appending one action that is neither an existence check nor a creation
    request, and registers no existence-check callback. *)
Lemma call_effect_snoc this this' acts a :
  call_effect name this (this', acts) →
  is_check name a = false → is_create name a = false →
  count (awaits_check name) (sends [a]) = 0 →
  call_effect name this (this', acts ++ [a]).
Proof.
  unfold call_effect. cbn [fst snd]. intros (H1 & H2 & H3 & H4) Ha Hb Hc.
  rewrite sends_app, !count_app, Hc. cbn [count]. rewrite Ha, Hb.
  repeat split; auto; lia.
Qed.

Lemma call_effect_refl this : call_effect name this (this, []).
Proof. unfold call_effect. simpl. repeat split; auto; lia. Qed.

Lemma set_effect this key value callback :
  call_effect name this (set this key value callback).
Proof.
  unfold set. rewrite _getParams_route.
  destruct (route this key) as [[n i]|].
  - pose proof (_getCollection_effect this n) as H.
    destruct (transformValueForStorage value) as [[]|];
      by apply call_effect_snoc.
  - by apply call_effect_snoc; [apply call_effect_refl|..].
Qed.

Lemma get_effect this key callback :
  call_effect name this (get this key callback).
Proof.
  unfold get. rewrite _getParams_route.
  destruct (route this key) as [[n i]|].
  - by apply call_effect_snoc; [apply _getCollection_effect|..].
  - by apply call_effect_snoc; [apply call_effect_refl|..].
Qed.

Lemma delete_effect this key callback :
  call_effect name this (Connector.delete this key callback).
Proof.
  unfold Connector.delete. rewrite _getParams_route.
  destruct (route this key) as [[n i]|].
  - by apply call_effect_snoc; [apply _getCollection_effect|..].
  - by apply call_effect_snoc; [apply call_effect_refl|..].
Qed.

Lemma handle_reply_effect this k r :
  reply_effect name this k (handle_reply this k r).
Proof.
  unfold reply_effect. destruct r as [e p].
  destruct k, e, p; simpl;
    repeat match goal with
           | |- context [bool_decide (_ ∈ _)] => case_bool_decide
           | |- context [bool_decide (?x = "constructor")] =>
               destruct (bool_decide (x = "constructor"))
           | |- context [_collections ?t !! ?n] => destruct (_collections t !! n)
           | |- context [truthy ?j] => destruct (truthy j)
           | |- context [transformValueFromStorage ?j] =>
               destruct (transformValueFromStorage j)
           end; simpl;
    repeat split; try lia; try done;
    by destruct (bool_decide _).
Qed.

Lemma inv_perform_call w x :
  provisioning_inv name w → call_effect name (conn w) x →
  provisioning_inv name (perform w x).
Proof.
  unfold provisioning_inv, call_effect, perform. simpl.
  intros [I1 I2] (H1 & H2 & H3 & _). rewrite !count_app. lia.
Qed.

Lemma inv_perform_reply w i q k r :
  provisioning_inv name w → pending w !! i = Some (q, k) →
  provisioning_inv name
    (perform (W (conn w) (base.delete i (pending w)) (db w) (out w))
             (handle_reply (conn w) k r)).
Proof.
  unfold provisioning_inv, perform. simpl. intros [I1 I2] Hi.
  pose proof (handle_reply_effect (conn w) k r) as (H1 & H2 & H3 & H4).
  pose proof (count_delete (awaits_check name) _ _ _ Hi) as Hd.
  change (awaits_check name (q, k)) with (checks_for name k) in Hd.
  unfold cached. rewrite H1. fold (cached name (conn w)).
  rewrite !count_app. lia.
Qed.

Lemma inv_step w ev : provisioning_inv name w → provisioning_inv name (step w ev).
Proof.
  intros I. destruct ev as [key v cb|key cb|key cb|i r|i]; simpl.
  - apply inv_perform_call, set_effect; done.
  - apply inv_perform_call, get_effect; done.
  - apply inv_perform_call, delete_effect; done.
  - destruct (pending w !! i) as [[q k]|] eqn:Hi; [|done].
    by eapply inv_perform_reply.
  - destruct (pending w !! i) as [[q k]|] eqn:Hi; [|done].
    destruct (serve (db w) q) as [db' r].
    apply (inv_perform_reply (W (conn w) (pending w) db' (out w)) i q k r); [done|done].
Qed.

Lemma inv_run w evs : provisioning_inv name w → provisioning_inv name (run w evs).
Proof.
  revert w. induction evs as [|ev evs IH]; intros w I; [done|].
  simpl. apply IH. by apply inv_step.
Qed.

Lemma inv_boot o db0 : provisioning_inv name (boot o db0).
Proof. unfold provisioning_inv. simpl. unfold cached. simpl. lia. Qed.

Lemma cache_step w ev h :
  _collections (conn w) !! name = Some h →
  _collections (conn (step w ev)) !! name = Some h.
Proof.
  intros H. destruct ev as [key v cb|key cb|key cb|i r|i]; simpl.
  - by apply (set_effect (conn w) key v cb).
  - by apply (get_effect (conn w) key cb).
  - by apply (delete_effect (conn w) key cb).
  - destruct (pending w !! i) as [[q k]|]; [|done]. simpl.
    by rewrite (proj1 (handle_reply_effect (conn w) k r)).
  - destruct (pending w !! i) as [[q k]|]; [|done].
    destruct (serve (db w) q) as [db' r]. simpl.
    by rewrite (proj1 (handle_reply_effect (conn w) k r)).
Qed.

Lemma cache_run w evs h :
  _collections (conn w) !! name = Some h →
  _collections (conn (run w evs)) !! name = Some h.
Proof.
  revert w. induction evs as [|ev evs IH]; intros w H; [done|].
  simpl. apply IH. by apply cache_step.
Qed.

End provisioning.

(** C8: the cache is a plain object, and line 237 tests
    [this._collections[collectionName]] for truthiness.  For the name
    [constructor] that is the function inherited from [Object.prototype]: on a
    new connector, [_getCollection] installs no handle, sends no existence
    check and returns the inherited value; [set] and [get] on the key
    [constructor/abc] then aim their queries at it, and the cache still has no
    entry for the name.  The claim promises, for every collection name, that
    the first call installs a handle. *)
Theorem collection_cache_skips_inherited_name :
  let o := Connector.Options None None None None None (Some "/") in
  let this := (Connector.new o).1 in
  let value := JObj {["_d" := JObj ∅]} in
  let w := World.run (World.boot o (World.Store ["deepstream"] ∅))
             [World.CallSet "constructor/abc" value 1;
              World.CallGet "constructor/abc" 2] in
  Connector.route this "constructor/abc" = Some ("constructor", "abc")
  ∧ Connector._getCollection this "constructor"
    = (Connector.Inherited "constructor", this, [])
  ∧ Connector._collections (World.conn w) !! "constructor" = None
  ∧ World.out w
    = [Connector.Send Connector.ListUserDatabases Connector.KListed;
       Connector.Send
         (Connector.Upsert (Connector.Inherited "constructor") "abc"
            (<["_key" := JStr "abc"]> (<["__ds" := JObj ∅]> ∅)))
         (Connector.KSet 1);
       Connector.Send
         (Connector.Select (Connector.Inherited "constructor") "constructor/abc")
         (Connector.KGet 2)].
Proof. repeat split; vm_compute; reflexivity. Qed.

(** X19: for every collection name that is not a property name of
    [Object.prototype], a [_getCollection] call that finds no cache entry
    returns a new handle, has it in the cache when it returns, and has only
    sent the existence check, whose callback runs later; for a name that is
    one, such a call returns the inherited value and installs and sends
    nothing.  For every name, once an entry is there, whatever happens next,
    every call returns that same handle object and sends nothing; and in every
    run of a connector at most one existence check and at most one creation
    request are issued for the name. *)
Theorem collection_provisioned_once (name : string) :
  (∀ this, Connector._collections this !! name = None →
     Connector.inherited name = false →
     ∃ (h : Connector.handle) this',
       Connector._getCollection this name
       = (Connector.Collection h, this',
          [Connector.Send (Connector.CollGet h) (Connector.KCollGet name)])
       ∧ Connector._collections this' !! name = Some h
       ∧ Connector.h_name h = name)
  ∧ (∀ this, Connector._collections this !! name = None →
       Connector.inherited name = true →
       Connector._getCollection this name = (Connector.Inherited name, this, []))
  ∧ (∀ w (h : Connector.handle) evs,
       Connector._collections (World.conn w) !! name = Some h →
       Connector._getCollection (World.conn (World.run w evs)) name
       = (Connector.Collection h, World.conn (World.run w evs), []))
  ∧ (∀ o db0 evs,
       World.count (World.is_check name) (World.out (World.run (World.boot o db0) evs)) ≤ 1
       ∧ World.count (World.is_create name) (World.out (World.run (World.boot o db0) evs)) ≤ 1)%nat.
Proof.
  split; [|split; [|split]].
  - intros this H Hi. unfold Connector._getCollection. rewrite H, Hi.
    eexists _, _. split; [reflexivity|]. simpl. by rewrite lookup_insert_eq.
  - intros this H Hi. unfold Connector._getCollection. by rewrite H, Hi.
  - intros w h evs H. apply (cache_run name w evs) in H.
    unfold Connector._getCollection. by rewrite H.
  - intros o db0 evs.
    destruct (inv_run name _ evs (inv_boot name o db0)) as [I1 I2].
    assert (World.cached name (World.conn (World.run (World.boot o db0) evs)) ≤ 1)%nat
      by (unfold World.cached; destruct (_ !! _); lia).
    lia.
Qed.

Lemma collection_provisioned_once_witness :
  let w := World.step
             (World.boot (Connector.Options None None None None None (Some "/"))
                (World.Store ["deepstream"] ∅))
             (World.CallGet "user/abc" 1) in
  let evs := [World.Answer 1 (Connector.fail "not found" Connector.PNone);
              World.CallGet "user/def" 2] in
  Connector._collections (World.conn w) !! "user" = Some (Connector.Handle "user" 0)
  ∧ Connector._getCollection (World.conn (World.run w evs)) "user"
    = (Connector.Collection (Connector.Handle "user" 0), World.conn (World.run w evs), []).
Proof.
  intros w evs.
  assert (H : Connector._collections (World.conn w) !! "user"
              = Some (Connector.Handle "user" 0)) by (vm_compute; reflexivity).
  split; [exact H|].
  exact (proj1 (proj2 (proj2 (collection_provisioned_once "user"))) w _ evs H).
Defined.

(** ** Routing with an arbitrary delimiter *)

Section any_delimiter.
Import Connector.

Lemma indexOf_from_range pat s i :
  indexOf_from pat s i = (-1)%Z
  ∨ (i ≤ indexOf_from pat s i ≤ i + Z.of_nat (String.length s))%Z.
Proof.
  revert i. induction s as [|a s IH]; intros i.
  - simpl. destruct pat; [right; simpl; lia | by left].
  - rewrite indexOf_from_cons. destruct (String.prefix pat (String a s)).
    + right. cbn [String.length]. lia.
    + destruct (IH (i + 1)%Z) as [->|H]; [by left|]. right. cbn [String.length]. lia.
Qed.

Lemma indexOf_zero_iff pat s : indexOf s pat = 0%Z ↔ String.prefix pat s = true.
Proof.
  unfold indexOf. destruct s as [|a s].
  - simpl. by destruct pat.
  - rewrite indexOf_from_cons. destruct (String.prefix pat (String a s)); [done|].
    split; [|done]. intros H. destruct (indexOf_from_range pat s (0 + 1)); lia.
Qed.

(** Where [indexOf] finds the text: what is before, what starts there, and
    that no earlier place would do. *)
Lemma indexOf_from_found pat s i n :
  indexOf_from pat s i = (i + Z.of_nat n)%Z → (0 ≤ i)%Z →
  ∃ pre rest,
    s = pre +:+ rest ∧ String.length pre = n ∧ String.prefix pat rest = true
    ∧ ∀ pre' rest', s = pre' +:+ rest' → String.length pre' < n →
                    String.prefix pat rest' = false.
Proof.
  revert i n. induction s as [|a s IH]; intros i n H Hi.
  - simpl in H. destruct pat; [|lia].
    assert (n = 0) as -> by lia. exists EmptyString, EmptyString.
    repeat split; try done. intros ? ? _ ?. lia.
  - rewrite indexOf_from_cons in H. destruct (String.prefix pat (String a s)) eqn:Hp.
    + assert (n = 0) as -> by lia. exists EmptyString, (String a s).
      repeat split; try done. intros ? ? _ ?. lia.
    + destruct (indexOf_from_range pat s (i + 1)) as [Hr|Hr]; [lia|].
      destruct n as [|n]; [lia|].
      destruct (IH (i + 1)%Z n) as (pre & rest & -> & Hl & Hpre & Hmin); [lia|lia|].
      exists (String a pre), rest. rewrite append_cons. cbn [String.length].
      repeat split; [congruence|done|].
      intros [|b pre'] rest' Heq Hlt.
      * rewrite append_nil in Heq. by rewrite <-Heq.
      * rewrite append_cons in Heq. injection Heq as -> Heq.
        apply (Hmin pre' rest' Heq). cbn [String.length] in Hlt. lia.
Qed.

Lemma indexOf_from_nowhere pat s i :
  indexOf_from pat s i = (-1)%Z → (0 ≤ i)%Z →
  ∀ pre rest, s = pre +:+ rest → String.prefix pat rest = false.
Proof.
  revert i. induction s as [|a s IH]; intros i H Hi pre rest Heq.
  - destruct pre; [|done]. rewrite append_nil in Heq. subst rest.
    simpl in H. destruct pat; [lia|done].
  - rewrite indexOf_from_cons in H. destruct (String.prefix pat (String a s)) eqn:Hp; [lia|].
    destruct pre as [|b pre].
    + rewrite append_nil in Heq. by subst rest.
    + rewrite append_cons in Heq. injection Heq as -> Heq.
      by apply (IH (i + 1)%Z H ltac:(lia) pre rest).
Qed.

Lemma prefix_nonempty pat rest pre :
  String.prefix pat rest = true →
  String.prefix pat (pre +:+ rest) = false →
  ∃ x tail, rest = String x tail.
Proof.
  intros Hp Hn. destruct rest as [|x tail]; [|eauto].
  destruct pat; [|done]. by rewrite prefix_empty in Hn.
Qed.

End any_delimiter.

(** X1: a key is rejected as invalid exactly when it starts with the text
    that [indexOf] searches for: the configured delimiter, or the text of
    [null] when none is configured. *)
Theorem route_fails_iff_prefix (this : Connector.connector) (key : string) :
  Connector.route this key = None
  ↔ String.prefix (Connector.ToString (Connector._splitChar this)) key = true.
Proof.
  rewrite <-indexOf_zero_iff. unfold Connector.route.
  destruct (Z.eqb_spec (Connector.indexOf key (Connector.ToString (Connector._splitChar this))) 0)
    as [->|Hne]; [done|].
  split; [|done]. by destruct (_ =? -1)%Z.
Qed.

Lemma route_shape (this : Connector.connector) (key n id : string) :
  Connector.route this key = Some (n, id) →
  let d := Connector.ToString (Connector._splitChar this) in
  (n = Connector._defaultCollection this ∧ id = key
   ∧ ∀ pre rest, key = pre +:+ rest → String.prefix d rest = false)
  ∨ (n ≠ EmptyString
     ∧ ∃ x, key = n +:+ String x id
            ∧ String.prefix d (String x id) = true
            ∧ ∀ pre rest, key = pre +:+ rest →
                String.length pre < String.length n →
                String.prefix d rest = false).
Proof.
  intros H d. unfold Connector.route in H. fold d in H.
  destruct (Z.eqb_spec (Connector.indexOf key d) 0) as [|H0]; [done|].
  destruct (Z.eqb_spec (Connector.indexOf key d) (-1)) as [Hm|Hm].
  - left. injection H as <- <-. repeat split.
    by apply (indexOf_from_nowhere d key 0 Hm).
  - right. unfold Connector.indexOf in *.
    destruct (indexOf_from_range d key 0) as [|Hr]; [done|].
    remember (Z.to_nat (Connector.indexOf_from d key 0)) as k eqn:Hk.
    assert (Hi : Connector.indexOf_from d key 0 = (0 + Z.of_nat k)%Z) by lia.
    destruct (indexOf_from_found d key 0 k Hi) as (pre & rest & -> & Hl & Hp & Hmin); [lia|].
    assert (Hk0 : 0 < k) by lia.
    destruct (prefix_nonempty d rest pre Hp) as (x & tail & ->).
    { apply (Hmin EmptyString _ eq_refl). simpl. lia. }
    rewrite Hi in H. rewrite <-Hl in H.
    replace (Z.to_nat (0 + Z.of_nat (String.length pre) + 1))
      with (S (String.length pre)) in H by lia.
    rewrite js_substring_before, js_substring_after in H. injection H as <- <-.
    split; [intros ->; simpl in Hl; lia|].
    exists x. repeat split; [done|]. intros pre' rest' Heq Hlt. apply (Hmin pre' rest' Heq). lia.
Qed.

(** X2: whatever the delimiter text (one character, several, or the text of
    [null]), a key that routes either goes whole to the default collection,
    when the text occurs nowhere in it, or is cut at the first occurrence of
    the text: the collection name is the non-empty part before it, and the
    document id is everything after the first character of the occurrence,
    so that all but the first character of a longer delimiter stay in the
    id. *)
Theorem route_cuts_one_character (this : Connector.connector) (key n id : string) :
  Connector.route this key = Some (n, id) →
  let d := Connector.ToString (Connector._splitChar this) in
  (n = Connector._defaultCollection this ∧ id = key
   ∧ ∀ pre rest, key = pre +:+ rest → String.prefix d rest = false)
  ∨ (n ≠ EmptyString
     ∧ ∃ x, key = n +:+ String x id
            ∧ String.prefix d (String x id) = true
            ∧ ∀ pre rest, key = pre +:+ rest →
                String.length pre < String.length n →
                String.prefix d rest = false).
Proof. apply route_shape. Qed.

Lemma route_cuts_one_character_witness :
  let this := (Connector.new (Connector.Options None None None None None (Some "::"))).1 in
  Connector.route this "user::abc" = Some ("user", ":abc")
  ∧ ("user" ≠ EmptyString
     ∧ ∃ x, "user::abc" = "user" +:+ String x ":abc"
            ∧ String.prefix "::" (String x ":abc") = true
            ∧ ∀ pre rest, "user::abc" = pre +:+ rest →
                String.length pre < String.length "user" →
                String.prefix "::" rest = false).
Proof.
  intros this.
  assert (H : Connector.route this "user::abc" = Some ("user", ":abc")) by reflexivity.
  split; [exact H|].
  destruct (route_cuts_one_character this "user::abc" "user" ":abc" H) as [(Hd & _)|Hs].
  - discriminate Hd.
  - exact Hs.
Defined.

(** ** More on the envelope transformer *)

Section transformer_more.
Import Transform Observe.

Lemma stripped_insert_reserved k v (d : gmap string json) :
  k = "__ds" ∨ k = "_key" ∨ k = "_rev" ∨ k = "_id" →
  stripped (<[k := v]> d) = stripped d.
Proof.
  intros Hk. apply map_eq. intros i. unfold stripped.
  rewrite !lookup_delete, lookup_insert.
  repeat case_decide; try done. destruct Hk as [|[|[|]]]; congruence.
Qed.

Lemma stripped_clean (d : gmap string json) :
  stripped d !! "__ds" = None ∧ stripped d !! "_key" = None
  ∧ stripped d !! "_rev" = None ∧ stripped d !! "_id" = None.
Proof.
  unfold stripped.
  repeat split; repeat (rewrite lookup_delete_ne by done); apply lookup_delete_eq.
Qed.

Lemma fromStorage_object_meta (doc meta : gmap string json) :
  doc !! "__ds" = Some (JObj meta) →
  transformValueFromStorage (JObj doc)
  = Returns (Plain (JObj (<["_d" :=
      if instanceof_Array (doc !! "__dsList")
      then default JNull (doc !! "__dsList")
      else JObj (stripped doc)]> meta))).
Proof.
  intros H. rewrite fromStorage_stripped, H. cbn zeta.
  by rewrite stripped_lookup.
Qed.

Lemma without_bookkeeping_stripped (doc : gmap string json) x :
  doc !! "__ds" = Some x →
  <["__ds" := x]> (stripped doc) = without_bookkeeping doc.
Proof.
  intros H. apply map_eq. intros i. unfold stripped, without_bookkeeping.
  rewrite lookup_insert, !lookup_delete.
  repeat case_decide; subst; try done.
Qed.

End transformer_more.

(** X3: [transformValueFromStorage] returns a JSON-like value exactly when
    the document's [__ds] field holds an object, and the value is then that
    object with its [_d] field set to the stored payload; it returns an array
    with a [_d] property set on it exactly when [__ds] holds an array, the
    array is then that one and the property holds the stored payload; it
    throws a TypeError exactly when [__ds] is absent or holds a primitive. *)
Theorem transformValueFromStorage_partial (v : json) :
  ((∃ r, Transform.transformValueFromStorage v = Returns (Transform.Plain r))
   ↔ ∃ meta, Observe.meta_field v = Some (JObj meta))
  ∧ (∀ meta, Observe.meta_field v = Some (JObj meta) →
       Transform.transformValueFromStorage v
       = Returns (Transform.Plain (JObj (<["_d" := Observe.stored_payload v]> meta))))
  ∧ (∀ elems d,
       Transform.transformValueFromStorage v = Returns (Transform.ArrayWithD elems d)
       ↔ Observe.meta_field v = Some (JArr elems) ∧ d = Observe.stored_payload v)
  ∧ (Transform.transformValueFromStorage v = Throws TypeError
     ↔ Observe.meta_field v = None
       ∨ ∃ p, Observe.meta_field v = Some p ∧ Transform.is_payload p = false).
Proof.
  assert (Hcases :
    match Observe.meta_field v with
    | Some (JObj meta) =>
        Transform.transformValueFromStorage v
        = Returns (Transform.Plain (JObj (<["_d" := Observe.stored_payload v]> meta)))
    | Some (JArr elems) =>
        Transform.transformValueFromStorage v
        = Returns (Transform.ArrayWithD elems (Observe.stored_payload v))
    | _ => Transform.transformValueFromStorage v = Throws TypeError
    end).
  { destruct v as [| | | |l|doc]; try reflexivity.
    rewrite fromStorage_stripped. simpl.
    rewrite stripped_lookup by done.
    destruct (doc !! "__ds") as [[| | | |l|meta]|]; try done;
      by destruct (doc !! "__dsList") as [[]|]. }
  destruct (Observe.meta_field v) as [[| | | |l|meta]|]; rewrite Hcases.
  all: (split; [|split; [|split]]); try split; intros;
    repeat match goal with
           | H : ∃ _, _ |- _ => destruct H
           | H : _ ∧ _ |- _ => destruct H
           | H : _ ∨ _ |- _ => destruct H
           | |- _ ↔ _ => split; intros
           end; simplify_eq/=; eauto 6.
Qed.

Lemma transformValueFromStorage_partial_witness :
  let doc : gmap string json :=
    <["_key" := JStr "abc"]> {["__ds" := JObj {["_v" := JNum 1]}]} in
  Observe.meta_field (JObj doc) = Some (JObj {["_v" := JNum 1]})
  ∧ Transform.transformValueFromStorage (JObj doc)
    = Returns (Transform.Plain (JObj (<["_d" := JObj ∅]> {["_v" := JNum 1]}))).
Proof.
  intros doc.
  assert (H : Observe.meta_field (JObj doc) = Some (JObj {["_v" := JNum 1]})) by reflexivity.
  split; [exact H|].
  destruct (transformValueFromStorage_partial (JObj doc)) as (_ & Hobj & _).
  rewrite (Hobj _ H). vm_compute. reflexivity.
Defined.

(** X4: the payload object that [transformValueFromStorage] hands back never
    carries a field named [__ds], [_key], [_rev] or [_id], and carries every
    other field of the stored document unchanged. *)
Theorem fromStorage_hides_bookkeeping (doc r p : gmap string json) :
  Transform.transformValueFromStorage (JObj doc) = Returns (Transform.Plain (JObj r)) →
  r !! "_d" = Some (JObj p) →
  (p !! "__ds" = None ∧ p !! "_key" = None ∧ p !! "_rev" = None ∧ p !! "_id" = None)
  ∧ ∀ k, k ≠ "__ds" → k ≠ "_key" → k ≠ "_rev" → k ≠ "_id" → p !! k = doc !! k.
Proof.
  intros H Hd. rewrite fromStorage_stripped in H. cbn zeta in H.
  destruct (doc !! "__ds") as [[| | | |l|meta]|]; try discriminate H.
  injection H as <-. rewrite lookup_insert_eq in Hd.
  destruct (instanceof_Array (Transform.stripped doc !! "__dsList")) eqn:Ha.
  - destruct (Transform.stripped doc !! "__dsList") as [[]|]; simpl in *; congruence.
  - injection Hd as <-. split; [apply stripped_clean|].
    intros k ????. by apply stripped_lookup.
Qed.

Lemma fromStorage_hides_bookkeeping_witness :
  let doc : gmap string json :=
    <["_key" := JStr "abc"]> (<["_rev" := JStr "r1"]> (<["v" := JNum 10]>
      {["__ds" := JObj {["_v" := JNum 1]}]})) in
  let p : gmap string json := {["v" := JNum 10]} in
  let r : gmap string json := <["_d" := JObj p]> {["_v" := JNum 1]} in
  Transform.transformValueFromStorage (JObj doc) = Returns (Transform.Plain (JObj r))
  ∧ r !! "_d" = Some (JObj p)
  ∧ p !! "_key" = None ∧ p !! "v" = doc !! "v".
Proof.
  intros doc p r.
  assert (H1 : Transform.transformValueFromStorage (JObj doc)
               = Returns (Transform.Plain (JObj r))) by (vm_compute; reflexivity).
  assert (H2 : r !! "_d" = Some (JObj p)) by (vm_compute; reflexivity).
  destruct (fromStorage_hides_bookkeeping doc r p H1 H2) as [(_ & Hk & _) Hother].
  split; [exact H1|]. split; [exact H2|]. split; [exact Hk|].
  apply Hother; discriminate.
Defined.

(** X5: whatever the store put under [_key], [_rev] and [_id], and whether
    or not it put anything there, [transformValueFromStorage] gives the same
    result. *)
Theorem fromStorage_ignores_bookkeeping (doc : gmap string json) (a b c : json) :
  Transform.transformValueFromStorage
    (JObj (<["_key" := a]> (<["_rev" := b]> (<["_id" := c]> doc))))
  = Transform.transformValueFromStorage (JObj doc).
Proof.
  rewrite !fromStorage_stripped.
  rewrite !stripped_insert_reserved by auto.
  by rewrite !lookup_insert_ne.
Qed.

(** X6: on every object whose [_d] holds an object or an array, the round
    trip through storage returns (it never throws), and the result is the
    input with at most the [_d] field replaced, by an object or an array: the
    sibling metadata fields always come back as they were. *)
Theorem roundtrip_keeps_metadata (m : gmap string json) (p : json) :
  m !! "_d" = Some p → Transform.is_payload p = true →
  ∃ d, Transform.roundtrip (JObj m) = Returns (Transform.Plain (JObj (<["_d" := d]> m)))
       ∧ Transform.is_payload d = true.
Proof.
  intros Hd Hp. destruct p as [| | | |l|d]; try discriminate Hp.
  - exists (JArr l). rewrite (roundtrip_array m l Hd). split; [|done].
    by rewrite insert_id.
  - rewrite (roundtrip_object m d Hd). rewrite insert_delete_eq.
    eexists. split; [reflexivity|].
    destruct (d !! "__dsList") as [[]|]; done.
Qed.

Lemma roundtrip_keeps_metadata_witness :
  let m : gmap string json :=
    <["_d" := JObj {["_key" := JStr "k1"]}]> {["_v" := JNum 1]} in
  m !! "_d" = Some (JObj {["_key" := JStr "k1"]})
  ∧ ∃ d, Transform.roundtrip (JObj m)
         = Returns (Transform.Plain (JObj (<["_d" := d]> m)))
         ∧ Transform.is_payload d = true.
Proof.
  intros m. split; [reflexivity|].
  exact (roundtrip_keeps_metadata m (JObj {["_key" := JStr "k1"]}) eq_refl eq_refl).
Defined.

(** X7: a stored document whose [__ds] holds an object without a [_d] field,
    read with [transformValueFromStorage] and transformed for storage again,
    comes back without its [_key], [_rev] and [_id] fields and otherwise
    unchanged; unless it holds an array under [__dsList], in which case only
    that array and [__ds] come back. *)
Theorem restore_drops_bookkeeping (doc meta : gmap string json) :
  doc !! "__ds" = Some (JObj meta) → meta !! "_d" = None →
  Observe.restore doc
  = Returns (JObj match doc !! "__dsList" with
                  | Some (JArr l) => <["__dsList" := JArr l]> (<["__ds" := JObj meta]> ∅)
                  | _ => Observe.without_bookkeeping doc
                  end).
Proof.
  intros Hm Hd. unfold Observe.restore.
  rewrite (fromStorage_object_meta doc meta Hm). simpl.
  destruct (instanceof_Array (doc !! "__dsList")) eqn:Ha.
  - destruct (doc !! "__dsList") as [[| | | |l|]|]; try discriminate Ha. simpl.
    rewrite (storage_of_array _ l) by apply lookup_insert_eq.
    by rewrite delete_insert_id.
  - rewrite (storage_of_object _ (Transform.stripped doc)) by apply lookup_insert_eq.
    rewrite delete_insert_id by done.
    rewrite (without_bookkeeping_stripped doc _ Hm).
    by destruct (doc !! "__dsList") as [[]|].
Qed.

Lemma restore_drops_bookkeeping_witness :
  let meta : gmap string json := {["_v" := JNum 1]} in
  let doc : gmap string json :=
    <["_key" := JStr "abc"]> (<["v" := JNum 10]> {["__ds" := JObj meta]}) in
  doc !! "__ds" = Some (JObj meta) ∧ meta !! "_d" = None
  ∧ Observe.restore doc = Returns (JObj (<["v" := JNum 10]> {["__ds" := JObj meta]})).
Proof.
  intros meta doc. split; [reflexivity|]. split; [reflexivity|].
  rewrite (restore_drops_bookkeeping doc meta eq_refl eq_refl).
  vm_compute. reflexivity.
Defined.

(** ** What a connector keeps over its life *)

Section lifetime.
Import Transform Connector World Observe.

Lemma route_nonempty this key n id :
  route this key = Some (n, id) → _defaultCollection this ≠ EmptyString → n ≠ EmptyString.
Proof.
  intros H Hd. destruct (route_shape this key n id H) as [(-> & _)|(Hn & _)]; done.
Qed.

Lemma route_config this this' key :
  config this = config this' → route this key = route this' key.
Proof. unfold config, route. intros H. injection H as _ _ _ _ -> ->. done. Qed.

Lemma _getCollection_config this n : config (_getCollection this n).1.2 = config this.
Proof.
  unfold _getCollection. by destruct (_collections this !! n); [|destruct (inherited n)].
Qed.

(** What a call of [_getCollection] returns, by what the cache held. *)
Lemma _getCollection_cases this n :
  (∃ h : handle, _collections this !! n = Some h
                 ∧ _getCollection this n = (Collection h, this, []))
  ∨ (_collections this !! n = None ∧ inherited n = true
     ∧ _getCollection this n = (Inherited n, this, []))
  ∨ (_collections this !! n = None ∧ inherited n = false
     ∧ _getCollection this n
       = (Collection (Handle n (next_obj this)),
          with_collections this (<[n := Handle n (next_obj this)]> (_collections this))
            (S (next_obj this)),
          [Send (CollGet (Handle n (next_obj this))) (KCollGet n)])).
Proof.
  unfold _getCollection. destruct (_collections this !! n) as [h|]; [left; eauto|].
  destruct (inherited n); auto.
Qed.

(** What the cache holds for the name after the call. *)
Lemma _getCollection_after this n :
  match (_getCollection this n).1.1 with
  | Collection h => _collections (_getCollection this n).1.2 !! n = Some h
  | Inherited m =>
      m = n ∧ inherited n = true ∧ (_getCollection this n).1.2 = this
      ∧ (_getCollection this n).2 = [] ∧ _collections this !! n = None
  end.
Proof.
  destruct (_getCollection_cases this n) as [(h & Hl & ->)|[(Hl & Hi & ->)|(Hl & Hi & ->)]];
    simpl; auto. apply lookup_insert_eq.
Qed.

(** A name of [Object.prototype] never gets an entry. *)
Lemma _getCollection_keeps_none this m n :
  inherited n = true → _collections this !! n = None →
  _collections (_getCollection this m).1.2 !! n = None.
Proof.
  intros Hi Hn.
  destruct (_getCollection_cases this m) as [(h & Hl & ->)|[(Hl & Hm & ->)|(Hl & Hm & ->)]];
    simpl; try done.
  rewrite lookup_insert_ne; [done|]. intros ->. congruence.
Qed.

(** The connector a method call leaves behind is the one [_getParams]
    leaves behind. *)
Lemma set_conn this key value callback :
  (set this key value callback).1 = (_getParams this key).1.2.
Proof.
  unfold set. destruct (_getParams this key) as [[[p|] t] a]; [|done].
  by destruct (transformValueForStorage value) as [[]|].
Qed.

Lemma get_conn this key callback : (get this key callback).1 = (_getParams this key).1.2.
Proof. unfold get. by destruct (_getParams this key) as [[[p|] t] a]. Qed.

Lemma delete_conn this key callback :
  (Connector.delete this key callback).1 = (_getParams this key).1.2.
Proof. unfold Connector.delete. by destruct (_getParams this key) as [[[p|] t] a]. Qed.

Lemma _getParams_conn this key :
  (_getParams this key).1.2
  = match route this key with
    | Some (n, _) => (_getCollection this n).1.2
    | None => this
    end.
Proof. rewrite _getParams_route. by destruct (route this key) as [[]|]. Qed.

Lemma handle_reply_conn this k r :
  (handle_reply this k r).1 = this ∨ (handle_reply this k r).1 = with_ready this.
Proof.
  destruct r as [e p]. destruct k, e, p; simpl;
    repeat match goal with
           | |- context [bool_decide ?P] => destruct (bool_decide P)
           | |- context [_collections ?t !! ?n] => destruct (_collections t !! n)
           | |- context [truthy ?j] => destruct (truthy j)
           | |- context [transformValueFromStorage ?j] =>
               destruct (transformValueFromStorage j)
           end; auto.
Qed.

Lemma step_conn w ev :
  conn (step w ev) = conn w ∨ conn (step w ev) = with_ready (conn w)
  ∨ ∃ n, conn (step w ev) = (_getCollection (conn w) n).1.2
         ∧ ∃ key id, route (conn w) key = Some (n, id).
Proof.
  destruct ev as [key v cb|key cb|key cb|i r|i]; simpl.
  1: rewrite set_conn. 2: rewrite get_conn. 3: rewrite delete_conn.
  1-3: rewrite _getParams_conn; destruct (route (conn w) key) as [[n id]|] eqn:Hr;
    [right; right; eauto | by left].
  - destruct (pending w !! i) as [[q k]|]; [|by left]. simpl.
    destruct (handle_reply_conn (conn w) k r); auto.
  - destruct (pending w !! i) as [[q k]|]; [|by left].
    destruct (serve (db w) q) as [db' r]. simpl.
    destruct (handle_reply_conn (conn w) k r); auto.
Qed.

Lemma step_config w ev : config (conn (step w ev)) = config (conn w).
Proof.
  destruct (step_conn w ev) as [->|[->|(n & -> & _)]]; [done|done|].
  apply _getCollection_config.
Qed.

Lemma run_config w evs : config (conn (run w evs)) = config (conn w).
Proof.
  revert w. induction evs as [|ev evs IH]; intros w; [done|].
  simpl. rewrite IH. apply step_config.
Qed.

Lemma _getCollection_wf this n :
  cache_wf this → n ≠ EmptyString → cache_wf (_getCollection this n).1.2.
Proof.
  intros (Hd & Hn & Hinj) Hne. unfold _getCollection.
  destruct (_collections this !! n) as [h|] eqn:Hl; [done|].
  destruct (inherited n); [done|].
  unfold cache_wf, with_collections. simpl.
  split; [done|]. split.
  - intros m h. rewrite lookup_insert. case_decide as Hm.
    + intros [= <-]. subst. simpl. repeat split; [done|lia].
    + intros Hlk. destruct (Hn m h Hlk) as (? & ? & ?). repeat split; [done|done|lia].
  - intros m m' h h'. rewrite !lookup_insert.
    repeat case_decide; subst; try done.
    + intros [= <-] Hlk Ho. apply Hn in Hlk as (_ & _ & Hlk). simpl in Ho. lia.
    + intros Hlk [= <-] Ho. apply Hn in Hlk as (_ & _ & Hlk). simpl in Ho. lia.
    + apply Hinj.
Qed.

Lemma step_wf w ev : cache_wf (conn w) → cache_wf (conn (step w ev)).
Proof.
  intros H. destruct (step_conn w ev) as [->|[->|(n & -> & key & id & Hr)]]; [done|done|].
  apply _getCollection_wf; [done|]. eapply route_nonempty; [done|apply H].
Qed.

Lemma run_wf w evs : cache_wf (conn w) → cache_wf (conn (run w evs)).
Proof.
  revert w. induction evs as [|ev evs IH]; intros w H; [done|].
  simpl. by apply IH, step_wf.
Qed.

Lemma none_step w ev n :
  inherited n = true → _collections (conn w) !! n = None →
  _collections (conn (step w ev)) !! n = None.
Proof.
  intros Hi Hn. destruct (step_conn w ev) as [->|[->|(m & -> & _)]]; [done|done|].
  by apply _getCollection_keeps_none.
Qed.

Lemma none_run w evs n :
  inherited n = true → _collections (conn w) !! n = None →
  _collections (conn (run w evs)) !! n = None.
Proof.
  revert w. induction evs as [|ev evs IH]; intros w Hi Hn; [done|].
  simpl. apply IH; [done|]. by apply none_step.
Qed.

Lemma or_else_nonempty o d : d ≠ EmptyString → or_else o d ≠ EmptyString.
Proof.
  intros Hd. unfold or_else. destruct o as [s|]; [|done].
  destruct (String.eqb_spec s EmptyString); done.
Qed.

Lemma boot_wf o db0 : cache_wf (conn (boot o db0)).
Proof.
  split; [by apply or_else_nonempty|]. by split; simpl; intros *; rewrite lookup_empty.
Qed.

End lifetime.

(** X8: in every run of a connector, the cache holds each handle under the
    handle's own collection name, no cached name is empty, and two different
    names never share a handle object. *)
Theorem cache_well_formed (o : Connector.options) (db0 : World.store)
    (evs : list World.event) :
  Observe.cache_wf (World.conn (World.run (World.boot o db0) evs)).
Proof. apply run_wf, boot_wf. Qed.

(** X9: after a call on a key that routes, whatever calls and driver replies
    follow, every later resolution of the same key gives the same parameters,
    with the same handle object, changes nothing in the connector and sends
    nothing. *)
Theorem same_key_same_handle (w : World.world) (key : string) (value : json)
    (callback : nat) (ev : World.event) (evs : list World.event) (p : Connector.params) :
  (Connector._getParams (World.conn w) key).1.1 = Some p →
  ev = World.CallSet key value callback ∨ ev = World.CallGet key callback
  ∨ ev = World.CallDelete key callback →
  let w' := World.run (World.step w ev) evs in
  Connector._getParams (World.conn w') key = (Some p, World.conn w', []).
Proof.
  intros Hp Hev w'.
  rewrite _getParams_route in Hp.
  destruct (Connector.route (World.conn w) key) as [[n id]|] eqn:Hr; [|done].
  simpl in Hp. injection Hp as <-.
  assert (Hstep : World.conn (World.step w ev)
                  = (Connector._getCollection (World.conn w) n).1.2).
  { assert (World.conn (World.step w ev) = (Connector._getParams (World.conn w) key).1.2) as ->.
    { destruct Hev as [->|[->| ->]]; simpl.
      - apply set_conn. - apply get_conn. - apply delete_conn. }
    by rewrite _getParams_conn, Hr. }
  rewrite _getParams_route.
  rewrite (route_config (World.conn w') (World.conn w)).
  2:{ unfold w'. by rewrite run_config, step_config. }
  rewrite Hr. unfold w'.
  pose proof (_getCollection_after (World.conn w) n) as Hafter.
  destruct (Connector._getCollection (World.conn w) n).1.1 as [h|m].
  - rewrite <-Hstep in Hafter. apply (cache_run n _ evs) in Hafter.
    unfold Connector._getCollection at 1 2 3. by rewrite Hafter.
  - destruct Hafter as (-> & Hi & Hsame & _ & Hnone).
    rewrite Hsame in Hstep. rewrite <-Hstep in Hnone.
    apply (none_run _ evs n Hi) in Hnone.
    unfold Connector._getCollection at 1 2 3. by rewrite Hnone, Hi.
Qed.

Lemma same_key_same_handle_witness :
  let w := World.boot (Connector.Options None None None None None (Some "/"))
             (World.Store ["deepstream"] ∅) in
  let p := Connector.Params (Connector.Handle "user" 0) "abc" in
  let evs := [World.CallSet "other/x" JNull 2;
              World.Answer 1 (Connector.fail "not found" Connector.PNone)] in
  (Connector._getParams (World.conn w) "user/abc").1.1 = Some p
  ∧ Connector._getParams
      (World.conn (World.run (World.step w (World.CallGet "user/abc" 1)) evs)) "user/abc"
    = (Some p, World.conn (World.run (World.step w (World.CallGet "user/abc" 1)) evs), []).
Proof.
  intros w p evs.
  assert (H : (Connector._getParams (World.conn w) "user/abc").1.1 = Some p)
    by (vm_compute; reflexivity).
  split; [exact H|].
  exact (same_key_same_handle w "user/abc" JNull 1 (World.CallGet "user/abc" 1) evs p
           H (or_intror (or_introl eq_refl))).
Defined.

(** ** Callbacks and bootstrap signals *)

Section signals.
Import Transform Connector World Observe.

Lemma delivered_app cb a b : delivered cb (a ++ b) = delivered cb a ++ delivered cb b.
Proof. apply omap_app. Qed.

Lemma _getCollection_quiet cb this n :
  delivered cb (_getCollection this n).2 = []
  ∧ count (owes cb) (sends (_getCollection this n).2) = 0
  ∧ count is_emit (_getCollection this n).2 = 0
  ∧ count boots (sends (_getCollection this n).2) = 0
  ∧ isReady (_getCollection this n).1.2 = isReady this.
Proof.
  unfold _getCollection. by destruct (_collections this !! n); [|destruct (inherited n)].
Qed.

Lemma call_quota_snoc cb cb' this this' pre a :
  delivered cb pre = [] → count (owes cb) (sends pre) = 0 →
  count is_emit pre = 0 → count boots (sends pre) = 0 →
  isReady this' = isReady this →
  (length (delivered cb [a]) + count (owes cb) (sends [a])
   ≤ (if (cb' =? cb)%nat then 1 else 0))%nat →
  is_emit a = false → count boots (sends [a]) = 0 →
  call_quota cb cb' this (this', pre ++ [a]).
Proof.
  intros H1 H2 H3 H4 H5 H6 H7 H8. unfold call_quota. cbn [fst snd].
  rewrite delivered_app, sends_app, !count_app, H1, H2, H3, H4, H8.
  cbn [count]. rewrite H7. repeat split; try done; simpl length in *; lia.
Qed.

Lemma method_quota cb this ev :
  match ev with
  | CallSet key value cb' => call_quota cb cb' this (set this key value cb')
  | CallGet key cb' => call_quota cb cb' this (get this key cb')
  | CallDelete key cb' => call_quota cb cb' this (Connector.delete this key cb')
  | _ => True
  end.
Proof.
  assert (Hlast : ∀ cb' this' pre a,
    delivered cb pre = [] → count (owes cb) (sends pre) = 0 →
    count is_emit pre = 0 → count boots (sends pre) = 0 →
    isReady this' = isReady this →
    match a with
    | Invoke c _ => c = cb'
    | Send (Upsert _ _ _) (KSet c) | Send (Select _ _) (KGet c)
    | Send (Remove _ _) (KDelete c) => c = cb'
    | Raise _ => True
    | _ => False
    end →
    call_quota cb cb' this (this', pre ++ [a])).
  { intros cb' this' pre a ????? Ha. apply call_quota_snoc; try done.
    - destruct a as [c args|[] []| | |]; simpl; unfold owes; simpl; try done;
        subst; destruct (cb' =? cb)%nat; simpl; lia.
    - by destruct a as [c args|[] []| | |].
    - by destruct a as [c args|[] []| | |]. }
  destruct ev as [key v cb'|key cb'|key cb'|i r|i]; try done.
  all: unfold set, get, Connector.delete; rewrite _getParams_route;
    destruct (route this key) as [[n id]|];
    [ destruct (_getCollection_quiet cb this n) as (? & ? & ? & ? & ?)
    | by apply (Hlast cb' this []) ].
  - by destruct (transformValueForStorage v) as [[]|]; apply Hlast.
  - by apply Hlast.
  - by apply Hlast.
Qed.

Lemma reply_quota cb this q k r :
  (length (delivered cb (handle_reply this k r).2)
   + count (owes cb) (sends (handle_reply this k r).2)
   ≤ (if owes cb (q, k) then 1 else 0))%nat.
Proof.
  destruct r as [e p]. unfold owes. destruct k, e, p; simpl;
    repeat match goal with
           | |- context [bool_decide ?P] => destruct (bool_decide P)
           | |- context [_collections ?t !! ?n] => destruct (_collections t !! n)
           | |- context [truthy ?j] => destruct (truthy j)
           | |- context [transformValueFromStorage ?j] =>
               destruct (transformValueFromStorage j)
           end; simpl;
    repeat match goal with
           | |- context [(?a =? ?b)%nat] => destruct (a =? b)%nat
           end; simpl; lia.
Qed.

Lemma callback_step cb n w ev :
  callback_inv cb n w →
  callback_inv cb (n + (if is_call cb ev then 1 else 0)) (step w ev).
Proof.
  unfold callback_inv. intros I.
  pose proof (method_quota cb (conn w) ev) as Hm.
  destruct ev as [key v cb'|key cb'|key cb'|i r|i]; simpl.
  1-3: destruct Hm as (Hq & _); unfold perform; simpl;
    rewrite delivered_app, length_app, count_app; lia.
  - destruct (pending w !! i) as [[q k]|] eqn:Hi; [|lia].
    pose proof (reply_quota cb (conn w) q k r).
    pose proof (count_delete (owes cb) _ _ _ Hi).
    unfold perform. simpl. rewrite delivered_app, length_app, count_app. lia.
  - destruct (pending w !! i) as [[q k]|] eqn:Hi; [|lia].
    destruct (serve (db w) q) as [db' r].
    pose proof (reply_quota cb (conn w) q k r).
    pose proof (count_delete (owes cb) _ _ _ Hi).
    unfold perform. simpl. rewrite delivered_app, length_app, count_app. lia.
Qed.

Lemma callback_run cb n w evs :
  callback_inv cb n w → callback_inv cb (n + count (is_call cb) evs) (run w evs).
Proof.
  revert n w. induction evs as [|ev evs IH]; intros n w I.
  - simpl. by rewrite Nat.add_0_r.
  - simpl. apply (callback_step cb n w ev) in I. apply IH in I.
    by rewrite <-Nat.add_assoc in I.
Qed.

(** What a driver callback adds to the bootstrap. *)
Lemma reply_boot this q k r :
  count is_emit (handle_reply this k r).2 + count boots (sends (handle_reply this k r).2)
  = (if boots (q, k) then 1 else 0)
  ∧ ((count (is_event "ready") (handle_reply this k r).2 = 0
      ∧ (handle_reply this k r).1 = this)
     ∨ (count (is_event "ready") (handle_reply this k r).2 = 1
        ∧ isReady (handle_reply this k r).1 = true
        ∧ boots (q, k) = true)).
Proof.
  destruct r as [e p]. unfold boots. destruct k, e, p; simpl;
    repeat match goal with
           | |- context [bool_decide (_ ∈ _)] => case_bool_decide
           | |- context [bool_decide (?x = "constructor")] =>
               destruct (bool_decide (x = "constructor"))
           | |- context [_collections ?t !! ?n] => destruct (_collections t !! n)
           | |- context [truthy ?j] => destruct (truthy j)
           | |- context [transformValueFromStorage ?j] =>
               destruct (transformValueFromStorage j)
           end; simpl; auto.
Qed.

Lemma count_event_le name acts : (count (is_event name) acts ≤ count is_emit acts)%nat.
Proof.
  induction acts as [|a acts IH]; simpl; [lia|].
  destruct a; simpl; try lia. destruct (bool_decide _); lia.
Qed.

Lemma bootstrap_step w ev : bootstrap_inv w → bootstrap_inv (step w ev).
Proof.
  unfold bootstrap_inv. intros (I1 & I2 & I3).
  pose proof (method_quota 0 (conn w) ev) as Hm.
  destruct ev as [key v cb'|key cb'|key cb'|i r|i]; simpl.
  1-3: destruct Hm as (_ & He & Hb & Hr); unfold perform; simpl;
    pose proof (count_event_le "ready" (out w));
    rewrite !count_app, Hr;
    match goal with
    | |- context [count (is_event "ready") ?x.2] =>
        pose proof (count_event_le "ready" x.2)
    end; lia.
  - destruct (pending w !! i) as [[q k]|] eqn:Hi; [|done].
    pose proof (reply_boot (conn w) q k r) as (Hb & Hr).
    pose proof (count_event_le "ready" (handle_reply (conn w) k r).2) as Hle.
    pose proof (count_delete boots _ _ _ Hi) as Hd.
    unfold perform. simpl. rewrite !count_app.
    destruct Hr as [(Hr & ->)|(Hr & -> & Hk)].
    + destruct (isReady (conn w)); lia.
    + rewrite Hk in *. destruct (isReady (conn w)); lia.
  - destruct (pending w !! i) as [[q k]|] eqn:Hi; [|done].
    destruct (serve (db w) q) as [db' r].
    pose proof (reply_boot (conn w) q k r) as (Hb & Hr).
    pose proof (count_event_le "ready" (handle_reply (conn w) k r).2) as Hle.
    pose proof (count_delete boots _ _ _ Hi) as Hd.
    unfold perform. simpl. rewrite !count_app.
    destruct Hr as [(Hr & ->)|(Hr & -> & Hk)].
    + destruct (isReady (conn w)); lia.
    + rewrite Hk in *. destruct (isReady (conn w)); lia.
Qed.

Lemma bootstrap_run w evs : bootstrap_inv w → bootstrap_inv (run w evs).
Proof.
  revert w. induction evs as [|ev evs IH]; intros w I; [done|].
  simpl. by apply IH, bootstrap_step.
Qed.

End signals.

(** X10: in every run of a connector, a callback is invoked at most as many
    times as methods were called with it: no call ever invokes its callback
    twice. *)
Theorem callback_at_most_once (o : Connector.options) (db0 : World.store)
    (evs : list World.event) (callback : nat) :
  (length (World.delivered callback (World.out (World.run (World.boot o db0) evs)))
   ≤ World.count (Observe.is_call callback) evs)%nat.
Proof.
  assert (I : Observe.callback_inv callback 0 (World.boot o db0)).
  { unfold Observe.callback_inv. simpl. lia. }
  apply (callback_run callback 0 _ evs) in I. unfold Observe.callback_inv in I.
  simpl in I. lia.
Qed.

(** X11: in every run of a connector at most one event is ever emitted, so
    never both [ready] and [error] and neither twice; and the connector's
    [isReady] flag is true exactly when [ready] has been emitted. *)
Theorem bootstrap_signals_once (o : Connector.options) (db0 : World.store)
    (evs : list World.event) :
  let w := World.run (World.boot o db0) evs in
  (World.count Observe.is_emit (World.out w) ≤ 1)%nat
  ∧ (Connector.isReady (World.conn w) = true
     ↔ World.count (Observe.is_event "ready") (World.out w) = 1).
Proof.
  intros w.
  assert (I : Observe.bootstrap_inv (World.boot o db0)) by (repeat split; simpl; lia).
  apply (bootstrap_run _ evs) in I. fold w in I. destruct I as (I1 & I2 & I3).
  split; [lia|]. rewrite I2. by destruct (Connector.isReady (World.conn w)).
Qed.

(** X12: the bootstrap of a new connector.  When the driver lists the
    configured database, the connector selects it without creating it; when
    the list lacks it, the connector creates it with the configured user and
    then selects it; either way it then sets [isReady] and emits [ready].  An
    error for the listing is emitted as [error], and the connector stays not
    ready. *)
Theorem bootstrap_paths (o : Connector.options) (db0 : World.store)
    (names : list string) (p1 p2 : Connector.payload) :
  let this := (Connector.new o).1 in
  let name := Connector._databaseName this in
  let listed := World.Answer 0 (Connector.ok (Connector.PNames names)) in
  (name ∈ names →
   World.run (World.boot o db0) [listed; World.Answer 0 (Connector.ok p1)]
   = World.W (Connector.with_ready this) [] db0
       [Connector.Send Connector.ListUserDatabases Connector.KListed;
        Connector.Send (Connector.UseDatabase name) Connector.KUsed;
        Connector.Emit "ready" None])
  ∧ (name ∉ names →
     World.run (World.boot o db0)
       [listed; World.Answer 0 (Connector.ok p1); World.Answer 0 (Connector.ok p2)]
     = World.W (Connector.with_ready this) [] db0
         [Connector.Send Connector.ListUserDatabases Connector.KListed;
          Connector.Send (Connector.CreateDatabase name (Connector._databaseUser this)
                            (Connector._databasePass this)) Connector.KDbCreated;
          Connector.Send (Connector.UseDatabase name) Connector.KUsed;
          Connector.Emit "ready" None])
  ∧ (∀ e, World.run (World.boot o db0) [World.Answer 0 (Connector.fail e p1)]
          = World.W this [] db0
              [Connector.Send Connector.ListUserDatabases Connector.KListed;
               Connector.Emit "error" (Some e)]).
Proof.
  intros this name listed. split; [|split].
  - intros Hin. unfold World.run, World.boot, listed. simpl.
    fold this. fold name. by rewrite bool_decide_eq_true_2.
  - intros Hin. unfold World.run, World.boot, listed. simpl.
    fold this. fold name. by rewrite bool_decide_eq_false_2.
  - done.
Qed.

Lemma bootstrap_paths_witness :
  let o := Connector.Options None (Some "records") None None None None in
  let db0 := World.Store [] ∅ in
  "records" ∈ ["_system"; "records"]
  ∧ World.run (World.boot o db0)
      [World.Answer 0 (Connector.ok (Connector.PNames ["_system"; "records"]));
       World.Answer 0 (Connector.ok Connector.PNone)]
    = World.W (Connector.with_ready (Connector.new o).1) [] db0
        [Connector.Send Connector.ListUserDatabases Connector.KListed;
         Connector.Send (Connector.UseDatabase "records") Connector.KUsed;
         Connector.Emit "ready" None].
Proof.
  intros o db0.
  assert (H : "records" ∈ ["_system"; "records"])
    by (apply list_elem_of_further, list_elem_of_here).
  split; [exact H|].
  exact (proj1 (bootstrap_paths o db0 ["_system"; "records"]
                  Connector.PNone Connector.PNone) H).
Defined.

(** ** Methods against the store *)

Section against_store.
Import Transform Connector World Observe.

Lemma run_app w a b : run w (a ++ b) = run (run w a) b.
Proof. apply foldl_app. Qed.

Lemma served_at this ps q k rest db0 o :
  step (W this (ps ++ (q, k) :: rest) db0 o) (Served (length ps))
  = perform (W this (ps ++ rest) (serve db0 q).1 o) (handle_reply this k (serve db0 q).2).
Proof.
  unfold step. cbn [pending conn db out].
  rewrite lookup_app_r, Nat.sub_diag by lia. cbn [lookup list_lookup].
  rewrite delete_middle. by destruct (serve db0 q).
Qed.

Lemma served_end this ps (x : request * kont) db0 o :
  step (W this (ps ++ [x]) db0 o) (Served (length ps))
  = perform (W this ps (serve db0 x.1).1 o) (handle_reply this x.2 (serve db0 x.1).2).
Proof. destruct x as [q k]. rewrite served_at. by rewrite app_nil_r. Qed.

Lemma served_mid this ps (x : request * kont) rest db0 o :
  step (W this (ps ++ x :: rest) db0 o) (Served (length ps))
  = perform (W this (ps ++ rest) (serve db0 x.1).1 o)
            (handle_reply this x.2 (serve db0 x.1).2).
Proof. destruct x as [q k]. apply served_at. Qed.

Variables (this : connector) (n : string) (h : handle) (key : string).
Hypothesis routed : route this key = Some (n, key).
Hypothesis cached_handle : _collections this !! n = Some h.
Hypothesis named : h_name h = n.

Lemma run_set ps db0 o c0 value doc cb :
  colls db0 !! n = Some c0 →
  transformValueForStorage value = Returns (JObj doc) →
  run (W this ps db0 o) [CallSet key value cb; Served (length ps)]
  = W this ps (written n key db0 c0 doc)
      (o ++ [Send (Upsert h key (<["_key" := JStr key]> doc)) (KSet cb);
             Invoke cb [ANull; ATrue]]).
Proof.
  intros Hdb Hto. unfold run. cbn [foldl].
  assert (E : step (W this ps db0 o) (CallSet key value cb)
              = W this (ps ++ [(Upsert h key (<["_key" := JStr key]> doc), KSet cb)]) db0
                  (o ++ [Send (Upsert h key (<["_key" := JStr key]> doc)) (KSet cb)])).
  { unfold step, set. rewrite _getParams_route. cbn [conn]. rewrite routed.
    unfold _getCollection. rewrite cached_handle. cbn [fst snd]. by rewrite Hto. }
  rewrite E, served_last. cbn [serve]. rewrite named, Hdb.
  cbn [fst snd handle_reply err res ok]. unfold perform.
  cbn [fst snd sends omap list_omap pending db out conn].
  by rewrite app_nil_r, <-app_assoc.
Qed.

Lemma run_get ps db0 o c cb :
  colls db0 !! n = Some c →
  run (W this ps db0 o) [CallGet key cb; Served (length ps); Served (length ps)]
  = W this ps db0 (o ++ Send (Select h key) (KGet cb) :: get_result cb (c !! key)).
Proof.
  intros Hdb. unfold run. cbn [foldl].
  assert (E : step (W this ps db0 o) (CallGet key cb)
              = W this (ps ++ [(Select h key, KGet cb)]) db0
                  (o ++ [Send (Select h key) (KGet cb)])).
  { unfold step, get. rewrite _getParams_route. cbn [conn]. rewrite routed.
    unfold _getCollection. by rewrite cached_handle. }
  rewrite E, served_last. cbn [serve]. rewrite named, Hdb.
  cbn [fst snd handle_reply err res ok]. unfold perform at 1.
  cbn [fst snd sends omap list_omap pending db out conn].
  rewrite served_last. unfold get_result.
  destruct (c !! key) as [d|]; cbn [serve fst snd handle_reply err res ok truthy].
  - destruct (transformValueFromStorage (JObj d)); unfold perform;
      cbn [fst snd sends omap list_omap pending db out conn];
      by rewrite app_nil_r, <-!app_assoc.
  - unfold perform. cbn [fst snd sends omap list_omap pending db out conn].
    by rewrite app_nil_r, <-!app_assoc.
Qed.

Lemma run_delete ps db0 o c cb :
  colls db0 !! n = Some c →
  run (W this ps db0 o) [CallDelete key cb; Served (length ps)]
  = match c !! key with
    | Some _ =>
        W this ps (Store (databases db0) (<[n := base.delete key c]> (colls db0)))
          (o ++ [Send (Remove h key) (KDelete cb); Invoke cb [ANull; ATrue]])
    | None =>
        W this ps db0
          (o ++ [Send (Remove h key) (KDelete cb);
                 Invoke cb [AErr "document not found"; ANull]])
    end.
Proof.
  intros Hdb. unfold run. cbn [foldl].
  assert (E : step (W this ps db0 o) (CallDelete key cb)
              = W this (ps ++ [(Remove h key, KDelete cb)]) db0
                  (o ++ [Send (Remove h key) (KDelete cb)])).
  { unfold step, Connector.delete. rewrite _getParams_route. cbn [conn]. rewrite routed.
    unfold _getCollection. by rewrite cached_handle. }
  rewrite E, served_last. cbn [serve]. rewrite named, Hdb.
  destruct (c !! key) as [d|]; cbn [fst snd handle_reply err res ok fail];
    unfold perform; cbn [fst snd sends omap list_omap pending db out conn];
    by rewrite app_nil_r, <-app_assoc.
Qed.

End against_store.

(** X13: when [transformValueForStorage] throws on the value (its [_d] is
    missing or primitive), [set] on a key that routes throws the same error
    out of the call, after [_getCollection] has run: the callback is never
    invoked and no upsert is sent.  If the collection name is not a property
    name of [Object.prototype], its handle is in the cache afterwards, and if
    it was not cached before, the existence check has been sent; if the name
    is one and was not cached, the call has changed and sent nothing. *)
Theorem set_throws_after_provisioning (this : Connector.connector) (key : string)
    (value : json) (callback : nat) (e : js_error) (n id : string) :
  Connector.route this key = Some (n, id) →
  Transform.transformValueForStorage value = Throws e →
  let x := Connector.set this key value callback in
  x = ((Connector._getCollection this n).1.2,
       (Connector._getCollection this n).2 ++ [Connector.Raise e])
  ∧ (∀ cb, World.delivered cb x.2 = [])
  ∧ World.upsert_keys x.2 = []
  ∧ (Connector.inherited n = false →
     ∃ h : Connector.handle,
       Connector._collections x.1 !! n = Some h
       ∧ (Connector._collections this !! n = None →
          x.2 = [Connector.Send (Connector.CollGet h) (Connector.KCollGet n);
                 Connector.Raise e]))
  ∧ (Connector.inherited n = true → Connector._collections this !! n = None →
     x = (this, [Connector.Raise e])).
Proof.
  intros Hr He x. unfold x, Connector.set. rewrite _getParams_route, Hr, He.
  cbn [fst snd]. split; [done|]. split; [|split; [|split]].
  - intros cb. rewrite delivered_app. by rewrite (proj1 (_getCollection_quiet cb this n)).
  - destruct (_getCollection_cases this n) as [(h & _ & ->)|[(_ & _ & ->)|(_ & _ & ->)]];
      done.
  - intros Hi.
    destruct (_getCollection_cases this n) as [(h & Hl & ->)|[(Hl & Hm & ->)|(Hl & Hm & ->)]].
    + exists h. split; [done|]. intros ?. congruence.
    + congruence.
    + eexists. split; [apply lookup_insert_eq|]. done.
  - intros Hi Hl. unfold Connector._getCollection. by rewrite Hl, Hi.
Qed.

Lemma set_throws_after_provisioning_witness :
  let this := (Connector.new (Connector.Options None None None None None (Some "/"))).1 in
  let x := Connector.set this "user/abc" (JObj {["_v" := JNum 1]}) 1 in
  Connector.route this "user/abc" = Some ("user", "abc")
  ∧ Transform.transformValueForStorage (JObj {["_v" := JNum 1]}) = Throws TypeError
  ∧ World.upsert_keys x.2 = []
  ∧ ∃ h : Connector.handle, Connector._collections x.1 !! "user" = Some h.
Proof.
  intros this x.
  assert (H1 : Connector.route this "user/abc" = Some ("user", "abc")) by reflexivity.
  assert (H2 : Transform.transformValueForStorage (JObj {["_v" := JNum 1]}) = Throws TypeError)
    by reflexivity.
  destruct (set_throws_after_provisioning this "user/abc" (JObj {["_v" := JNum 1]}) 1
              TypeError "user" "abc" H1 H2) as (_ & _ & H3 & H4 & _).
  split; [exact H1|]. split; [exact H2|]. split; [exact H3|].
  destruct (H4 eq_refl) as (h & Hh & _). exists h. exact Hh.
Defined.

(** X14: on a connector whose cache is well formed, each method called
    with a key that routes to collection [n] with document id [id] ends by
    sending exactly one query, aimed at what [_getCollection] returns for
    [n]: [set] an upsert under the primary key [id] of the transformed value
    with its [_key] field set to [id]; [get] a point query for the whole key;
    [delete] a removal of the whole key.  That target is the handle then
    cached for [n], whose name is [n]; or, when [n] is a property name of
    [Object.prototype] without a cache entry, the inherited value, which is no
    collection, and then nothing is cached and nothing else is sent. *)
Theorem queries_target_routed_collection (this : Connector.connector) (key n id : string)
    (value : json) (doc : gmap string json) (callback : nat) :
  Observe.cache_wf this →
  Connector.route this key = Some (n, id) →
  Transform.transformValueForStorage value = Returns (JObj doc) →
  ∃ t this' pre,
    Connector._getCollection this n = (t, this', pre)
    ∧ match t with
      | Connector.Collection h =>
          Connector.h_name h = n ∧ Connector._collections this' !! n = Some h
      | Connector.Inherited m =>
          m = n ∧ Connector.inherited n = true ∧ this' = this ∧ pre = []
          ∧ Connector._collections this !! n = None
      end
    ∧ World.upsert_keys pre = [] ∧ World.select_keys pre = []
    ∧ Connector.set this key value callback
      = (this', pre ++ [Connector.Send
                          (Connector.Upsert t id (<["_key" := JStr id]> doc))
                          (Connector.KSet callback)])
    ∧ Connector.get this key callback
      = (this', pre ++ [Connector.Send (Connector.Select t key)
                          (Connector.KGet callback)])
    ∧ Connector.delete this key callback
      = (this', pre ++ [Connector.Send (Connector.Remove t key)
                          (Connector.KDelete callback)]).
Proof.
  intros Hwf Hr Hto.
  exists (Connector._getCollection this n).1.1, (Connector._getCollection this n).1.2,
         (Connector._getCollection this n).2.
  assert (Hn : n ≠ EmptyString) by (eapply route_nonempty; [done|apply Hwf]).
  pose proof (_getCollection_wf this n Hwf Hn) as (_ & Hname & _).
  pose proof (_getCollection_after this n) as Hafter.
  split; [by destruct (Connector._getCollection this n) as [[] ?]|].
  split.
  { destruct (Connector._getCollection this n).1.1 as [h|m]; [|done].
    split; [by destruct (Hname n _ Hafter)|done]. }
  split.
  { destruct (_getCollection_cases this n) as [(h & _ & ->)|[(_ & _ & ->)|(_ & _ & ->)]];
      done. }
  split.
  { destruct (_getCollection_cases this n) as [(h & _ & ->)|[(_ & _ & ->)|(_ & _ & ->)]];
      done. }
  unfold Connector.set, Connector.get, Connector.delete.
  by rewrite !_getParams_route, Hr, Hto.
Qed.

Lemma queries_target_routed_collection_witness :
  let this := (Connector.new (Connector.Options None None None None None (Some "/"))).1 in
  let value := JObj {["_d" := JObj ∅]} in
  Observe.cache_wf this
  ∧ Connector.route this "user/abc" = Some ("user", "abc")
  ∧ ∃ t this' pre,
      Connector._getCollection this "user" = (t, this', pre)
      ∧ Connector.get this "user/abc" 1
        = (this', pre ++ [Connector.Send (Connector.Select t "user/abc")
                            (Connector.KGet 1)]).
Proof.
  intros this value.
  assert (Hwf : Observe.cache_wf this).
  { split; [discriminate|]. split; simpl; intros *; by rewrite lookup_empty. }
  assert (Hr : Connector.route this "user/abc" = Some ("user", "abc")) by reflexivity.
  split; [exact Hwf|]. split; [exact Hr|].
  destruct (queries_target_routed_collection this "user/abc" "user" "abc" value
              (<["__ds" := JObj ∅]> ∅) 1 Hwf Hr eq_refl)
    as (t & this' & pre & Hgc & _ & _ & _ & _ & Hget & _).
  exists t, this', pre. split; [exact Hgc|exact Hget].
Defined.

Lemma set_then_get_plain_key_witness :
  let this := Connector.with_collections
                (Connector.new (Connector.Options None None None None None None)).1
                {["deepstream_docs" := Connector.Handle "deepstream_docs" 0]} 1 in
  let w := World.W this [] (World.Store ["deepstream"] {["deepstream_docs" := ∅]}) [] in
  let m : gmap string json := <["_d" := JArr [JNum 1; JNum 2]]> {["_v" := JNum 3]} in
  Connector.route (World.conn w) "someValue" = Some ("deepstream_docs", "someValue")
  ∧ Transform.reserved_free (JArr [JNum 1; JNum 2]) = true
  ∧ World.delivered 2
      (World.out (World.run w [World.CallSet "someValue" (JObj m) 1; World.Served 0;
                               World.CallGet "someValue" 2; World.Served 0;
                               World.Served 0]))
    = [[Connector.ANull; Connector.ADoc (Transform.Plain (JObj m))]].
Proof.
  intros this w m.
  assert (Hr : Connector.route (World.conn w) "someValue"
               = Some ("deepstream_docs", "someValue")) by reflexivity.
  split; [exact Hr|]. split; [reflexivity|].
  pose proof (set_then_get_plain_key w "deepstream_docs"
                (Connector.Handle "deepstream_docs" 0) ∅ "someValue" m
                (JArr [JNum 1; JNum 2]) 1 2 Hr eq_refl eq_refl eq_refl eq_refl eq_refl eq_refl)
    as Hrun.
  cbv zeta in Hrun. destruct Hrun as [doc Hrun].
  change (length (World.pending w)) with 0 in Hrun.
  rewrite Hrun. reflexivity.
Defined.

(** X16: where the routed document id is the key itself, the collection
    exists and its handle is cached, [set], then [delete], then [get] on the
    key, each served by the store in turn, report success for [set] and for
    [delete] and hand [get]'s caller [(null, null)]; the collection then
    holds nothing under the key, whatever it held before. *)
Theorem set_delete_get_plain_key (w : World.world) (n : string) (h : Connector.handle)
    (c0 : gmap string (gmap string json)) (key : string) (value : json)
    (doc : gmap string json) (cb1 cb2 cb3 : nat) :
  Connector.route (World.conn w) key = Some (n, key) →
  Connector._collections (World.conn w) !! n = Some h → Connector.h_name h = n →
  World.colls (World.db w) !! n = Some c0 →
  Transform.transformValueForStorage value = Returns (JObj doc) →
  let i := length (World.pending w) in
  World.run w [World.CallSet key value cb1; World.Served i;
               World.CallDelete key cb2; World.Served i;
               World.CallGet key cb3; World.Served i; World.Served i]
  = World.W (World.conn w) (World.pending w)
      (World.Store (World.databases (World.db w))
         (<[n := base.delete key c0]> (World.colls (World.db w))))
      (World.out w
       ++ [Connector.Send (Connector.Upsert h key (<["_key" := JStr key]> doc))
             (Connector.KSet cb1);
           Connector.Invoke cb1 [Connector.ANull; Connector.ATrue];
           Connector.Send (Connector.Remove h key) (Connector.KDelete cb2);
           Connector.Invoke cb2 [Connector.ANull; Connector.ATrue];
           Connector.Send (Connector.Select h key) (Connector.KGet cb3);
           Connector.Send (Connector.CursorNext []) (Connector.KGetNext cb3);
           Connector.Invoke cb3 [Connector.ANull; Connector.ANull]]).
Proof.
  intros Hr Hc Hh Hdb Hto i. destruct w as [this ps db0 o].
  cbn [World.conn World.pending World.db World.out] in *. subst i.
  change [World.CallSet key value cb1; World.Served (length ps);
          World.CallDelete key cb2; World.Served (length ps);
          World.CallGet key cb3; World.Served (length ps); World.Served (length ps)]
    with ([World.CallSet key value cb1; World.Served (length ps)]
          ++ [World.CallDelete key cb2; World.Served (length ps)]
          ++ [World.CallGet key cb3; World.Served (length ps); World.Served (length ps)]).
  rewrite !run_app.
  rewrite (run_set this n h key Hr Hc Hh ps db0 o c0 value doc cb1 Hdb Hto).
  rewrite (run_delete this n h key Hr Hc Hh ps _ _
             (<[key := World.bookkeeping n key (<["_key" := JStr key]> doc)]> c0) cb2).
  2:{ apply lookup_insert_eq. }
  rewrite lookup_insert_eq.
  rewrite (run_get this n h key Hr Hc Hh ps _ _ (base.delete key c0) cb3).
  2:{ cbn [World.colls]. rewrite lookup_insert_eq. by rewrite delete_insert_eq. }
  rewrite lookup_delete_eq. cbn [Observe.get_result World.colls World.databases Observe.written].
  rewrite insert_insert_eq, delete_insert_eq, <-!app_assoc. reflexivity.
Qed.

Lemma set_delete_get_plain_key_witness :
  let this := Connector.with_collections
                (Connector.new (Connector.Options None None None None None None)).1
                {["deepstream_docs" := Connector.Handle "deepstream_docs" 0]} 1 in
  let w := World.W this [] (World.Store ["deepstream"] {["deepstream_docs" := ∅]}) [] in
  let value := JObj {["_d" := JObj ∅]} in
  Connector.route (World.conn w) "someValue" = Some ("deepstream_docs", "someValue")
  ∧ World.delivered 3
      (World.out (World.run w [World.CallSet "someValue" value 1; World.Served 0;
                               World.CallDelete "someValue" 2; World.Served 0;
                               World.CallGet "someValue" 3; World.Served 0;
                               World.Served 0]))
    = [[Connector.ANull; Connector.ANull]].
Proof.
  intros this w value.
  assert (Hr : Connector.route (World.conn w) "someValue"
               = Some ("deepstream_docs", "someValue")) by reflexivity.
  split; [exact Hr|].
  pose proof (set_delete_get_plain_key w "deepstream_docs"
                (Connector.Handle "deepstream_docs" 0) ∅ "someValue" value
                (<["__ds" := JObj ∅]> ∅) 1 2 3 Hr eq_refl eq_refl eq_refl eq_refl) as Hrun.
  cbv zeta in Hrun. change (length (World.pending w)) with 0 in Hrun.
  rewrite Hrun. reflexivity.
Defined.

(** X17: under the same conditions, a second [set] on the key replaces what
    the first one wrote: the store ends as if only the second value had been
    set, and a following [get] hands its caller the second value (when that
    value's payload uses no reserved field name). *)
Theorem set_overwrites_plain_key (w : World.world) (n : string) (h : Connector.handle)
    (c0 : gmap string (gmap string json)) (key : string) (v1 : json)
    (doc1 : gmap string json) (m2 : gmap string json) (p2 : json) (cb1 cb2 cb3 : nat) :
  Connector.route (World.conn w) key = Some (n, key) →
  Connector._collections (World.conn w) !! n = Some h → Connector.h_name h = n →
  World.colls (World.db w) !! n = Some c0 →
  Transform.transformValueForStorage v1 = Returns (JObj doc1) →
  m2 !! "_d" = Some p2 → Transform.is_payload p2 = true →
  Transform.reserved_free p2 = true →
  let i := length (World.pending w) in
  let w' := World.run w [World.CallSet key v1 cb1; World.Served i;
                         World.CallSet key (JObj m2) cb2; World.Served i;
                         World.CallGet key cb3; World.Served i; World.Served i] in
  World.db w'
  = World.db (World.run w [World.CallSet key (JObj m2) cb2; World.Served i])
  ∧ World.conn w' = World.conn w ∧ World.pending w' = World.pending w
  ∧ ∃ sent, World.out w'
            = World.out w ++ sent
                ++ [Connector.Invoke cb3
                      [Connector.ANull; Connector.ADoc (Transform.Plain (JObj m2))]]
            ∧ World.delivered cb3 sent
              = World.delivered cb3 [Connector.Invoke cb1 [Connector.ANull; Connector.ATrue];
                                     Connector.Invoke cb2 [Connector.ANull; Connector.ATrue]].
Proof.
  intros Hr Hc Hh Hdb Hto1 Hd2 Hp2 Hf2 i w'.
  destruct (storage_is_object m2 p2 Hd2 Hp2) as [doc2 Hto2].
  pose proof (roundtrip_reserved_free m2 p2 Hd2 Hp2 Hf2) as Hfrom.
  unfold Transform.roundtrip in Hfrom. rewrite Hto2 in Hfrom. cbn [obind] in Hfrom.
  destruct w as [this ps db0 o].
  cbn [World.conn World.pending World.db World.out] in *. subst i w'.
  change [World.CallSet key v1 cb1; World.Served (length ps);
          World.CallSet key (JObj m2) cb2; World.Served (length ps);
          World.CallGet key cb3; World.Served (length ps); World.Served (length ps)]
    with ([World.CallSet key v1 cb1; World.Served (length ps)]
          ++ [World.CallSet key (JObj m2) cb2; World.Served (length ps)]
          ++ [World.CallGet key cb3; World.Served (length ps); World.Served (length ps)]).
  rewrite !run_app.
  rewrite (run_set this n h key Hr Hc Hh ps db0 o c0 v1 doc1 cb1 Hdb Hto1).
  rewrite (run_set this n h key Hr Hc Hh ps db0 o c0 (JObj m2) doc2 cb2 Hdb Hto2).
  rewrite (run_set this n h key Hr Hc Hh ps (Observe.written n key db0 c0 doc1) _
             (<[key := World.bookkeeping n key (<["_key" := JStr key]> doc1)]> c0)
             (JObj m2) doc2 cb2).
  2:{ apply lookup_insert_eq. }
  2:{ exact Hto2. }
  rewrite (run_get this n h key Hr Hc Hh ps _ _
             (<[key := World.bookkeeping n key (<["_key" := JStr key]> doc2)]> c0) cb3).
  2:{ cbn [Observe.written World.colls]. rewrite lookup_insert_eq.
      by rewrite insert_insert_eq. }
  rewrite lookup_insert_eq. cbn [Observe.get_result].
  rewrite fromStorage_bookkeeping, Hfrom.
  cbn [World.db World.conn World.pending World.out Observe.written World.colls World.databases].
  split.
  { unfold Observe.written. cbn [World.colls World.databases].
    by rewrite !insert_insert_eq. }
  split; [done|]. split; [done|].
  eexists [_; _; _; _; _; _]. rewrite <-!app_assoc. split; [reflexivity|].
  reflexivity.
Qed.

Lemma set_overwrites_plain_key_witness :
  let this := Connector.with_collections
                (Connector.new (Connector.Options None None None None None None)).1
                {["deepstream_docs" := Connector.Handle "deepstream_docs" 0]} 1 in
  let w := World.W this [] (World.Store ["deepstream"] {["deepstream_docs" := ∅]}) [] in
  let v1 := JObj {["_d" := JObj ∅]} in
  let m2 : gmap string json := {["_d" := JArr [JNum 1]]} in
  Connector.route (World.conn w) "someValue" = Some ("deepstream_docs", "someValue")
  ∧ Transform.reserved_free (JArr [JNum 1]) = true
  ∧ World.db (World.run w [World.CallSet "someValue" v1 1; World.Served 0;
                           World.CallSet "someValue" (JObj m2) 2; World.Served 0;
                           World.CallGet "someValue" 3; World.Served 0; World.Served 0])
    = World.db (World.run w [World.CallSet "someValue" (JObj m2) 2; World.Served 0]).
Proof.
  intros this w v1 m2.
  assert (Hr : Connector.route (World.conn w) "someValue"
               = Some ("deepstream_docs", "someValue")) by reflexivity.
  split; [exact Hr|]. split; [reflexivity|].
  exact (proj1 (set_overwrites_plain_key w "deepstream_docs"
                  (Connector.Handle "deepstream_docs" 0) ∅ "someValue" v1
                  (<["__ds" := JObj ∅]> ∅) m2 (JArr [JNum 1]) 1 2 3
                  Hr eq_refl eq_refl eq_refl eq_refl eq_refl eq_refl eq_refl)).
Defined.

(** X18: the first write to a collection that is neither cached nor in the
    store, and whose name is not a property name of [Object.prototype] (the
    case of the comment at line 254).  [set] sends the existence
    check and the upsert together.  If the store serves the upsert first, the
    write fails: the caller gets the store's error and the store is
    unchanged.  If the store serves the check, then the creation request that
    the failed check triggers, and only then the upsert, the write succeeds
    and the new collection holds exactly the written document. *)
Theorem first_write_race (w : World.world) (key n id : string) (value : json)
    (doc : gmap string json) (callback : nat) :
  Connector.route (World.conn w) key = Some (n, id) →
  Connector._collections (World.conn w) !! n = None →
  Connector.inherited n = false →
  World.colls (World.db w) !! n = None →
  Transform.transformValueForStorage value = Returns (JObj doc) →
  let i := length (World.pending w) in
  let h := Connector.Handle n (Connector.next_obj (World.conn w)) in
  let doc' := <["_key" := JStr id]> doc in
  let asked := [Connector.Send (Connector.CollGet h) (Connector.KCollGet n);
                Connector.Send (Connector.Upsert h id doc') (Connector.KSet callback)] in
  let early := World.run w [World.CallSet key value callback; World.Served (S i)] in
  let late := World.run w [World.CallSet key value callback;
                           World.Served i; World.Served (S i); World.Served i] in
  (∃ e, World.out early
        = World.out w ++ asked
            ++ [Connector.Invoke callback [Connector.AErr e; Connector.ARaw Connector.PNone]])
  ∧ World.db early = World.db w
  ∧ World.out late
    = World.out w ++ asked
        ++ [Connector.Send (Connector.CollCreate h n true) Connector.KCollCreate;
            Connector.Invoke callback [Connector.ANull; Connector.ATrue]]
  ∧ World.colls (World.db late) !! n = Some {[id := World.bookkeeping n id doc']}
  ∧ World.pending late = World.pending w.
Proof.
  intros Hr Hc Hi Hdb Hto i h doc' asked early late.
  destruct w as [this ps db0 o].
  cbn [World.conn World.pending World.db World.out] in *. subst i.
  set (this' := Connector.with_collections this (<[n := h]> (Connector._collections this))
                  (S (Connector.next_obj this))).
  set (x1 := (Connector.CollGet h, Connector.KCollGet n)).
  set (x2 := (Connector.Upsert h id doc', Connector.KSet callback)).
  assert (E : World.step (World.W this ps db0 o) (World.CallSet key value callback)
              = World.W this' (ps ++ [x1; x2]) db0 (o ++ asked)).
  { unfold World.step, Connector.set. rewrite _getParams_route.
    cbn [World.conn]. rewrite Hr. unfold Connector._getCollection. rewrite Hc, Hi.
    cbn [fst snd]. by rewrite Hto. }
  assert (Hmiss : World.serve db0 (Connector.Upsert h id doc')
                  = (db0, Connector.fail "collection not found" Connector.PNone)).
  { cbn [World.serve]. change (Connector.h_name h) with n. by rewrite Hdb. }
  assert (Hlen : ∀ x : Connector.request * Connector.kont, S (length ps) = length (ps ++ [x])).
  { intros x. rewrite length_app. simpl. lia. }
  assert (Hearly : early
                   = World.W this' (ps ++ [x1]) db0
                       ((o ++ asked)
                        ++ [Connector.Invoke callback
                              [Connector.AErr "collection not found";
                               Connector.ARaw Connector.PNone]])).
  { unfold early, World.run. cbn [foldl]. rewrite E.
    rewrite (cons_middle x1 ps [x2]), (app_assoc ps [x1] [x2]), (Hlen x1), served_end.
    unfold x2 at 1 2 3. cbn [fst snd]. rewrite Hmiss.
    cbn [fst snd Connector.handle_reply Connector.err Connector.res Connector.fail].
    unfold World.perform.
    cbn [fst snd World.sends omap list_omap World.pending World.db World.out World.conn].
    by rewrite app_nil_r. }
  assert (Hlate : late
                  = World.W this' ps
                      (World.Store (World.databases db0)
                         (<[n := <[id := World.bookkeeping n id doc']> ∅]>
                            (<[n := ∅]> (World.colls db0))))
                      ((((o ++ asked)
                         ++ [Connector.Send (Connector.CollCreate h n true)
                               Connector.KCollCreate]) ++ [])
                       ++ [Connector.Invoke callback [Connector.ANull; Connector.ATrue]])).
  { unfold late, World.run. cbn [foldl]. rewrite E.
    rewrite served_mid. unfold x1 at 1 2 3. cbn [fst snd World.serve].
    change (Connector.h_name h) with n. rewrite Hdb.
    cbn [fst snd Connector.handle_reply Connector.err Connector.res Connector.fail].
    change (Connector._collections this' !! n)
      with (<[n := h]> (Connector._collections this) !! n).
    rewrite lookup_insert_eq. unfold World.perform at 1.
    cbn [fst snd World.sends omap list_omap World.pending World.db World.out World.conn].
    rewrite (Hlen x2), served_end. cbn [fst snd World.serve]. rewrite Hdb.
    cbn [fst snd Connector.handle_reply Connector.err Connector.res Connector.ok].
    unfold World.perform at 1.
    cbn [fst snd World.sends omap list_omap World.pending World.db World.out World.conn].
    rewrite app_nil_r, served_end. unfold x2 at 1 2 3.
    cbn [fst snd World.serve World.colls].
    change (Connector.h_name h) with n. rewrite lookup_insert_eq.
    cbn [fst snd Connector.handle_reply Connector.err Connector.res Connector.ok
           World.databases].
    unfold World.perform.
    cbn [fst snd World.sends omap list_omap World.pending World.db World.out World.conn].
    by rewrite app_nil_r. }
  rewrite Hearly, Hlate. cbn [World.out World.db World.pending World.colls].
  split; [|split; [|split; [|split]]].
  - eexists. by rewrite <-!app_assoc.
  - done.
  - by rewrite app_nil_r, <-!app_assoc.
  - rewrite lookup_insert_eq. by rewrite insert_empty.
  - done.
Qed.

Lemma first_write_race_witness :
  let w := World.boot (Connector.Options None None None None None (Some "/"))
             (World.Store ["deepstream"] ∅) in
  let value := JObj {["_d" := JObj ∅]} in
  Connector.route (World.conn w) "user/abc" = Some ("user", "abc")
  ∧ World.db (World.run w [World.CallSet "user/abc" value 1; World.Served 2]) = World.db w.
Proof.
  intros w value.
  assert (Hr : Connector.route (World.conn w) "user/abc" = Some ("user", "abc"))
    by reflexivity.
  split; [exact Hr|].
  exact (proj1 (proj2 (first_write_race w "user/abc" "user" "abc" value
                         (<["__ds" := JObj ∅]> ∅) 1 Hr eq_refl eq_refl eq_refl eq_refl))).
Defined.
